(** * pymol_ts_helper: a shallow embedding of the TS metadata parser,
      its cache and its console commands.

    Text is modelled as lists of 8-bit characters.  The embedding follows
    Python on 7-bit ASCII text, where [str.upper], [str.strip], [\s] and
    [\d] have the meaning given below; code points above 127 are kept as
    opaque characters that are neither whitespace, nor digits, nor cased.
    A file is its decoded content after universal-newline translation. *)

From Stdlib Require Import Ascii String DecimalString DecimalNat.
From Stdlib Require Import List Arith Bool Lia.
Import ListNotations.
Local Open Scope list_scope.
Local Open Scope bool_scope.

(** ** Python strings *)

Module Py.

Definition pystr := list ascii.

Definition str (s : string) : pystr := list_ascii_of_string s.
Arguments str s%_string.

Fixpoint str_eqb (a b : pystr) : bool :=
  match a, b with
  | [], [] => true
  | x :: a', y :: b' => Ascii.eqb x y && str_eqb a' b'
  | _, _ => false
  end.

Definition is_empty {A} (l : list A) : bool :=
  match l with [] => true | _ => false end.

(** Truthiness of a string: non-empty. *)
Definition truthy (s : pystr) : bool := negb (is_empty s).

Definition between (lo hi : nat) (c : ascii) : bool :=
  (lo <=? nat_of_ascii c) && (nat_of_ascii c <=? hi).

(** [str.isspace] on ASCII: TAB..CR, FS..US and the space. *)
Definition isspace (c : ascii) : bool := between 9 13 c || between 28 32 c.
Definition isdigit (c : ascii) : bool := between 48 57 c.
Definition isupper (c : ascii) : bool := between 65 90 c.
Definition islower (c : ascii) : bool := between 97 122 c.
Definition isalpha (c : ascii) : bool := isupper c || islower c.

Definition upper_char (c : ascii) : ascii :=
  if islower c then ascii_of_nat (nat_of_ascii c - 32) else c.
Definition lower_char (c : ascii) : ascii :=
  if isupper c then ascii_of_nat (nat_of_ascii c + 32) else c.

Definition upper (s : pystr) : pystr := map upper_char s.
Definition lower (s : pystr) : pystr := map lower_char s.

Definition char_in (chars : pystr) (c : ascii) : bool :=
  existsb (Ascii.eqb c) chars.

Fixpoint lstrip_by (p : ascii -> bool) (s : pystr) : pystr :=
  match s with
  | c :: t => if p c then lstrip_by p t else s
  | [] => []
  end.

Definition rstrip_by (p : ascii -> bool) (s : pystr) : pystr :=
  rev (lstrip_by p (rev s)).

Definition lstrip (s : pystr) : pystr := lstrip_by isspace s.
Definition rstrip (s : pystr) : pystr := rstrip_by isspace s.
Definition strip (s : pystr) : pystr := rstrip (lstrip s).
Definition lstrip_chars (chars s : pystr) : pystr := lstrip_by (char_in chars) s.
Definition rstrip_chars (chars s : pystr) : pystr := rstrip_by (char_in chars) s.

Fixpoint startswith (pre s : pystr) : bool :=
  match pre, s with
  | [], _ => true
  | x :: pre', y :: s' => Ascii.eqb x y && startswith pre' s'
  | _ :: _, [] => false
  end.

Definition endswith (suf s : pystr) : bool := startswith (rev suf) (rev s).

(** [sub in s] *)
Fixpoint contains (sub s : pystr) : bool :=
  startswith sub s ||
  match s with
  | [] => false
  | _ :: t => contains sub t
  end.

(** [s.split(sep, 1)] for a one-character separator that occurs in [s]:
    the text before and after its first occurrence; [None] when [sep] does
    not occur (Python then returns the one-element list [[s]]). *)
Fixpoint split_first (sep : ascii) (s : pystr) : option (pystr * pystr) :=
  match s with
  | [] => None
  | c :: t =>
      if Ascii.eqb c sep then Some ([], t)
      else match split_first sep t with
           | Some (a, b) => Some (c :: a, b)
           | None => None
           end
  end.

Fixpoint take_word (s : pystr) : pystr * pystr :=
  match s with
  | c :: t => if isspace c then ([], s)
              else let (w, r) := take_word t in (c :: w, r)
  | [] => ([], [])
  end.

(** [s.split(None, 1)]: at most two parts; the second keeps its trailing
    whitespace. *)
Definition split_ws1 (s : pystr) : list pystr :=
  match lstrip s with
  | [] => []
  | s1 =>
      let (w, r) := take_word s1 in
      match lstrip r with
      | [] => [w]
      | r1 => [w; r1]
      end
  end.

(** [str(i)] for a non-negative integer. *)
Definition str_of_nat (n : nat) : pystr :=
  list_ascii_of_string (NilEmpty.string_of_uint (Nat.to_uint n)).

(** [''.join(parts)] *)
Definition join (parts : list pystr) : pystr := concat parts.

(** Iterating a text file: each line keeps its newline; the last one may
    lack it. *)
Fixpoint readlines (s : pystr) : list pystr :=
  match s with
  | [] => []
  | c :: t =>
      if Ascii.eqb c "010"%char then [c] :: readlines t
      else match readlines t with
           | [] => [[c]]
           | l :: ls => (c :: l) :: ls
           end
  end.

End Py.
Import Py.

(** ** A backtracking matcher for the regular expressions of the script

    The constructors cover what the seven patterns of the source use:
    character classes, bounded greedy and lazy repetition of a class,
    sequence, alternation, capturing groups and [$].  Alternatives and
    repetitions are tried in the order of Python's [re]. *)

Module Re.

Inductive regex : Type :=
| RChar (p : ascii -> bool)
| RRep (p : ascii -> bool) (lo : nat) (hi : option nat) (greedy : bool)
| RSeq (a b : regex)
| RAlt (a b : regex)
| RGroup (a : regex)
| REnd.

Notation "a <|> b" :=
  (match a with Some x => Some x | None => b end)
  (at level 60, right associativity, only parsing).

Section Matcher.
Context {R : Type}.

Definition more_allowed (hi : option nat) : bool :=
  match hi with Some 0 => false | _ => true end.

(** [p{lo,hi}] followed by the continuation [k]. *)
Fixpoint rep (p : ascii -> bool) (greedy : bool) (lo : nat) (hi : option nat)
    (s : pystr) (k : pystr -> option R) {struct s} : option R :=
  match s with
  | c :: t =>
      if p c && more_allowed hi then
        if greedy then
          rep p greedy (pred lo) (option_map pred hi) t k
          <|> (if lo =? 0 then k s else None)
        else
          (if lo =? 0 then k s else None)
          <|> rep p greedy (pred lo) (option_map pred hi) t k
      else if lo =? 0 then k s else None
  | [] => if lo =? 0 then k s else None
  end.

(** A capture is kept as the text at its start and the text left at its
    end; the captured string is cut out once the whole match is known. *)
Definition span := (pystr * pystr)%type.

Definition cut (sp : span) : pystr :=
  firstn (length (fst sp) - length (snd sp)) (fst sp).

Fixpoint run (r : regex) (s : pystr) (caps : list span)
    (k : list span -> pystr -> option R) : option R :=
  match r with
  | RChar p =>
      match s with
      | c :: t => if p c then k caps t else None
      | [] => None
      end
  | RRep p lo hi g => rep p g lo hi s (k caps)
  | RSeq a b => run a s caps (fun caps' s' => run b s' caps' k)
  | RAlt a b => run a s caps k <|> run b s caps k
  | RGroup a => run a s caps (fun caps' s' => k (caps' ++ [(s, s')]) s')
  | REnd =>
      match s with
      | [] => k caps s
      | [c] => if Ascii.eqb c "010"%char then k caps s else None
      | _ => None
      end
  end.

End Matcher.

Record rmatch := { whole : pystr; groups : list pystr; rest : pystr }.

(** Truthiness of a match object. *)
Definition matched (m : option rmatch) : bool :=
  match m with Some _ => true | None => false end.

(** [re.match(r, s)] *)
Definition re_match (r : regex) (s : pystr) : option rmatch :=
  run r s []
    (fun caps s' =>
       Some {| whole := cut (s, s'); groups := map cut caps; rest := s' |}).

(** [re.search(r, s)]: the leftmost position where [r] matches. *)
Fixpoint re_search (r : regex) (s : pystr) : option rmatch :=
  match re_match r s with
  | Some m => Some m
  | None => match s with
            | [] => None
            | _ :: t => re_search r t
            end
  end.

(** [re.finditer]: the successive non-overlapping matches, left to right. *)
Fixpoint finditer (fuel : nat) (r : regex) (s : pystr) : list rmatch :=
  match fuel with
  | 0 => []
  | S fuel' =>
      match re_match r s with
      | Some m =>
          m :: (if length (rest m) <? length s then finditer fuel' r (rest m)
                else match s with
                     | [] => []
                     | _ :: t => finditer fuel' r t
                     end)
      | None =>
          match s with
          | [] => []
          | _ :: t => finditer fuel' r t
          end
      end
  end.

Definition re_findall (r : regex) (s : pystr) : list rmatch :=
  finditer (S (length s)) r s.

(** Shorthands *)
Definition lit (c : ascii) : regex := RChar (Ascii.eqb c).
Definition star p := RRep p 0 None true.
Definition plus p := RRep p 1 None true.
Definition opt p := RRep p 0 (Some 1) true.
Fixpoint seq (rs : list regex) : regex :=
  match rs with
  | [] => RRep (fun _ => false) 0 (Some 0) true
  | [r] => r
  | r :: rs' => RSeq r (seq rs')
  end.

Definition nonspace (c : ascii) : bool := negb (isspace c).
Definition anychar (c : ascii) : bool := negb (Ascii.eqb c "010"%char).

(** [[-+]?\d+\.\d+] *)
Definition decimal : regex :=
  seq [opt (char_in (str "-+")); plus isdigit; lit "."%char; plus isdigit].

(** [[-+]?\d+\.\d+\s+[-+]?\d+\.\d+\s+[-+]?\d+\.\d+] *)
Definition re_three_decimals : regex :=
  seq [decimal; plus isspace; decimal; plus isspace; decimal].

(** [^\s*\d+\s+\S+\s+\S+\s+\S+\s+\S+\s+[-+]?\d+\.\d+], used with [re.match] *)
Definition re_columnar : regex :=
  seq [star isspace; plus isdigit;
       plus isspace; plus nonspace; plus isspace; plus nonspace;
       plus isspace; plus nonspace; plus isspace; plus nonspace;
       plus isspace; decimal].

(** [^\s*\d+\s+[A-Z0-9]], used with [re.match] *)
Definition re_digits_token : regex :=
  seq [star isspace; plus isdigit; plus isspace;
       RChar (fun c => isupper c || isdigit c)].

(** [^\s*([A-Za-z0-9_\- ]{1,60}?)\s*[:\-]\s*(.+)$], used with [re.match] *)
Definition generic_key_char (c : ascii) : bool :=
  isalpha c || isdigit c || char_in (str "_- ") c.
Definition re_generic : regex :=
  seq [star isspace;
       RGroup (RRep generic_key_char 1 (Some 60) false);
       star isspace; RChar (char_in (str ":-")); star isspace;
       RGroup (plus anychar); REnd].

(** [([A-Za-z]+)\s*[:=]?\s*(\d+)] *)
Definition re_stoich_token : regex :=
  seq [RGroup (plus isalpha); star isspace; opt (char_in (str ":="));
       star isspace; RGroup (plus isdigit)].

(** [([A-Za-z]\d+)] *)
Definition re_compact : regex :=
  RGroup (RSeq (RChar isalpha) (plus isdigit)).

(** [[-+]?\d*\.\d+|\d+] *)
Definition re_number : regex :=
  RAlt (seq [opt (char_in (str "-+")); star isdigit; lit "."%char; plus isdigit])
       (plus isdigit).

End Re.
Import Re.

(** ** Insertion-ordered dictionaries with string keys *)

Module OD.

Definition odict (V : Type) := list (pystr * V).

Fixpoint od_get {V} (d : odict V) (k : pystr) : option V :=
  match d with
  | [] => None
  | (k', v) :: t => if str_eqb k' k then Some v else od_get t k
  end.

(** [d[k] = v]: an existing key keeps its place, a new one goes last. *)
Fixpoint od_set {V} (d : odict V) (k : pystr) (v : V) : odict V :=
  match d with
  | [] => [(k, v)]
  | (k', v') :: t =>
      if str_eqb k' k then (k', v) :: t else (k', v') :: od_set t k v
  end.

Definition od_mem {V} (d : odict V) (k : pystr) : bool :=
  match od_get d k with Some _ => true | None => false end.

Definition od_keys {V} (d : odict V) : list pystr := map fst d.

End OD.
Import OD.

(** ** The metadata parser *)

Definition _KEY_ALIASES : odict (list pystr) :=
  [ (str "STOICH", [str "STOICH"; str "STOICHIOMETR"; str "TOICH"; str "STOI"]);
    (str "SCORE",  [str "SCORE"; str "GDT"; str "TM_SCORE"; str "TM-SCORE";
                    str "TM"; str "QMEAN"]);
    (str "METHOD", [str "METHOD"; str "ETHOD"]);
    (str "AUTHOR", [str "AUTHOR"; str "UTHOR"]);
    (str "MODEL",  [str "MODEL"]);
    (str "FORMAT", [str "FORMAT"; str "FRMAT"; str "FRM"]);
    (str "TITLE",  [str "TITLE"; str "TITL"]);
    (str "COMPND", [str "COMPND"; str "COMPOUND"; str "COMPONENT"]) ].

Definition _FRIENDLY : odict pystr :=
  [ (str "STOICH", str "Stoichiometry");
    (str "SCORE",  str "Score(s)");
    (str "METHOD", str "Method");
    (str "AUTHOR", str "Author");
    (str "MODEL",  str "Model") ].

Definition _looks_like_coordinate_line (s : pystr) : bool :=
  if is_empty s || is_empty (strip s) then false
  else if matched (re_search re_three_decimals s) then true
  else if existsb (fun t => startswith t (upper (strip s)))
            [str "ATOM"; str "HETATM"; str "TER"; str "ENDMDL"] then true
  else if matched (re_match re_columnar s) then true
  else false.

Definition _identify_canonical_key (line_upper left_token_upper : pystr)
  : option pystr :=
  match find (fun e => existsb (fun a => truthy a && contains a line_upper)
                         (snd e)) _KEY_ALIASES with
  | Some (canon, _) => Some canon
  | None =>
      if truthy left_token_upper then
        let candidate := left_token_upper ++ firstn 20 line_upper in
        match find (fun e => contains (fst e) candidate) _KEY_ALIASES with
        | Some (canon, _) => Some canon
        | None => None
        end
      else None
  end.

Definition _extract_value_from_line (original_line : pystr) : pystr :=
  match split_first ":"%char original_line with
  | Some (_, after) => rstrip_chars (str " .;") (strip (strip after))
  | None =>
      match split_ws1 (strip original_line) with
      | [_; p1] => rstrip_chars (str " .;") (strip p1)
      | _ => rstrip_chars (str " .;") (strip original_line)
      end
  end.

Fixpoint clean_loop (val vup : pystr) (aliases : list pystr) : pystr :=
  match aliases with
  | [] => val
  | a :: more =>
      if truthy a && startswith a vup then
        let stripped := lstrip_chars (str " :-.") (skipn (length a) val) in
        if truthy stripped then stripped else clean_loop val vup more
      else clean_loop val vup more
  end.

Definition _clean_leading_fragment (val : pystr) : pystr :=
  if is_empty val then val
  else clean_loop val (lstrip (upper val)) (concat (map snd _KEY_ALIASES)).

Fixpoint stoich_loop (tokens : list rmatch) (seen : list pystr)
    (out : list pystr) : list pystr :=
  match tokens with
  | [] => out
  | m :: more =>
      let key := strip (nth 0 (groups m) []) in
      let num := nth 1 (groups m) [] in
      if existsb (str_eqb key) seen then stoich_loop more seen out
      else stoich_loop more (seen ++ [key]) (out ++ [key ++ num])
  end.

Definition _find_stoich_tokens_in_text (text : pystr) : option pystr :=
  if is_empty text then None
  else
    match re_findall re_stoich_token text with
    | (_ :: _) as tokens =>
        match stoich_loop tokens [] [] with
        | [] => None
        | out => Some (join out)
        end
    | [] =>
        match re_findall re_compact text with
        | (_ :: _) as compact => Some (join (map (fun m => nth 0 (groups m) []) compact))
        | [] => None
        end
    end.

(** The three containers the header loop fills. *)
Record pstate := mk_pstate
  { out : odict (option pystr); remarks : list pystr; other : odict pystr }.

Definition set_out st o := mk_pstate o (remarks st) (other st).
Definition set_remarks st r := mk_pstate (out st) r (other st).
Definition set_other st o := mk_pstate (out st) (remarks st) o.

Definition init_pstate : pstate :=
  mk_pstate (map (fun e => (fst e, None)) _KEY_ALIASES) [] [].

Inductive ctl := Break | Next (st : pstate).

Definition rstrip_nl (raw : pystr) : pystr := rstrip_chars [ "010"%char ] raw.

Definition left_token_of (line : pystr) : pystr :=
  match split_first ":"%char line with
  | Some (before, _) => upper (strip before)
  | None =>
      match split_ws1 (strip line) with
      | w :: _ => upper w
      | [] => []
      end
  end.

(** One iteration of the header loop on line number [i], after the test of
    the line cap. *)
Definition loop_body (i : nat) (raw : pystr) (st : pstate) : ctl :=
  let line := rstrip_nl raw in
  if is_empty (strip line) then Next st
  else if _looks_like_coordinate_line line then Break
  else
    let up := upper line in
    if startswith (str "REMARK") (strip up) then
      Next (set_remarks st (remarks st ++ [strip line]))
    else
      match _identify_canonical_key up (left_token_of line) with
      | Some canon =>
          let val := _clean_leading_fragment (_extract_value_from_line line) in
          if _looks_like_coordinate_line val
             || matched (re_match re_digits_token val)
          then Next st
          else if truthy val then Next (set_out st (od_set (out st) canon (Some val)))
          else Next st
      | None =>
          match re_match re_generic line with
          | Some m =>
              let gk := strip (nth 0 (groups m) []) in
              let gv := strip (nth 1 (groups m) []) in
              if truthy gk && truthy gv && negb (od_mem (other st) gk)
              then Next (set_other st (od_set (other st) gk gv))
              else Next st
          | None =>
              if truthy line && (length (strip line) <? 300) then
                let tag := str "LINE_" ++ str_of_nat i in
                if negb (od_mem (other st) tag)
                then Next (set_other st (od_set (other st) tag (strip line)))
                else Next st
              else Next st
          end
      end.

(** [for i, raw in enumerate(fh)] *)
Fixpoint header_loop (max_header_lines i : nat) (lines : list pystr)
    (st : pstate) : pstate :=
  match lines with
  | [] => st
  | raw :: more =>
      if max_header_lines <? i then st
      else match loop_body i raw st with
           | Break => st
           | Next st' => header_loop max_header_lines (S i) more st'
           end
  end.

(** ** Files and the host environment *)

(** A node of the file system.  [iter_error = Some n]: iterating the file
    raises after [n] lines were delivered ([Some 0] also stands for an
    [open] that fails); [read_error]: [fh.read()] raises.  Opening a
    directory raises at once. *)
Inductive fsnode :=
| File (content : pystr) (iter_error : option nat) (read_error : bool)
| Dir (entries : option (list pystr)).

Record host := mk_host
  { fs : pystr -> option fsnode;
    getcwd : pystr;
    script_dir : pystr;
    expanduser : pystr -> pystr;
    (** what [input()] returns; [None] when it raises *)
    stdin : option pystr }.

(** [os.stat]: the empty path names nothing. *)
Definition stat (h : host) (p : pystr) : option fsnode :=
  if is_empty p then None else fs h p.

Definition os_path_exists (h : host) (p : pystr) : bool :=
  match stat h p with Some _ => true | None => false end.
Definition os_path_isfile (h : host) (p : pystr) : bool :=
  match stat h p with Some (File _ _ _) => true | _ => false end.
Definition os_path_isdir (h : host) (p : pystr) : bool :=
  match stat h p with Some (Dir _) => true | _ => false end.

(** [os.listdir]; [None] when it raises. *)
Definition os_listdir (h : host) (p : pystr) : option (list pystr) :=
  match stat h p with Some (Dir (Some names)) => Some names | _ => None end.

(** The lines the loop [for raw in fh] receives before the end of the file
    or an exception, which the enclosing [try] swallows. *)
Definition iter_lines (h : host) (p : pystr) : list pystr :=
  match stat h p with
  | Some (File content None _) => readlines content
  | Some (File content (Some n) _) => firstn n (readlines content)
  | _ => []
  end.

Definition _collect_all_text (h : host) (ts_path : pystr) : pystr :=
  match stat h ts_path with
  | Some (File content _ false) => content
  | _ => []
  end.

(** The record [_parse_ts_metadata] returns: the canonical fields, then
    [REMARKS], then [OTHER] when it is not empty. *)
Record meta := mk_meta
  { fields : odict (option pystr);
    REMARKS : list pystr;
    OTHER : option (odict pystr) }.

(** [len(meta)] and the truth value of the dictionary. *)
Definition meta_len (m : meta) : nat :=
  length (fields m) + 1 + (match OTHER m with Some _ => 1 | None => 0 end).
Definition meta_truthy (m : option meta) : bool :=
  match m with Some r => 0 <? meta_len r | None => false end.

(** [d.get(k)] on a dictionary of optional strings: a missing key and a
    stored [None] both give [None]. *)
Definition get_opt (d : odict (option pystr)) (k : pystr) : option pystr :=
  match od_get d k with Some (Some v) => Some v | _ => None end.

(** [d.get(k) or None] *)
Definition get_or_none (d : odict (option pystr)) (k : pystr) : option pystr :=
  match get_opt d k with
  | Some v => if truthy v then Some v else None
  | None => None
  end.

Definition opt_truthy (v : option pystr) : bool :=
  match v with Some s => truthy s | None => false end.

Definition post_stoich (h : host) (ts_path : pystr)
    (o : odict (option pystr)) : odict (option pystr) :=
  if negb (opt_truthy (get_opt o (str "STOICH")))
     && negb (opt_truthy (get_opt o (str "STOICHIOMETRY")))
  then
    match _find_stoich_tokens_in_text (_collect_all_text h ts_path) with
    | Some found =>
        if truthy found then
          if od_mem o (str "STOICH") then od_set o (str "STOICH") (Some found)
          else od_set o (str "STOICHIOMETRY") (Some found)
        else o
    | None => o
    end
  else o.

Definition post_score (o : odict (option pystr)) : odict (option pystr) :=
  match get_opt o (str "SCORE") with
  | Some sc =>
      if truthy sc then
        match re_search re_number sc with
        | Some m => od_set o (str "SCORE") (Some (whole m))
        | None => o
        end
      else o
  | None => o
  end.

Definition build_result (st : pstate) (o : odict (option pystr)) : meta :=
  {| fields := fold_left (fun res k => od_set res k (get_or_none o k))
                 (od_keys _KEY_ALIASES) [];
     REMARKS := remarks st;
     OTHER := if is_empty (other st) then None else Some (other st) |}.

Definition _parse_ts_metadata (h : host) (ts_path : pystr)
    (max_header_lines : nat) : option meta :=
  if is_empty ts_path || negb (os_path_exists h ts_path) then None
  else
    let st := header_loop max_header_lines 0 (iter_lines h ts_path) init_pstate in
    Some (build_result st (post_score (post_stoich h ts_path (out st)))).

Definition default_max_header_lines : nat := 2000.

(** [meta.get(k)] for one of the canonical keys. *)
Definition meta_get (m : meta) (k : pystr) : option pystr := get_opt (fields m) k.

(** A host whose file system is a finite table. *)
Definition table_fs (t : list (pystr * fsnode)) (p : pystr) : option fsnode :=
  od_get t p.

Definition one_file_host (p content : pystr) : host :=
  mk_host (table_fs [(p, File content None false)]) (str "/") (str "/")
          (fun x => x) None.

Definition parse_text (content : pystr) (max_header_lines : nat) : option meta :=
  _parse_ts_metadata (one_file_host (str "/f.txt") content) (str "/f.txt")
    max_header_lines.

Definition nl : pystr := [ "010"%char ].

(** ** Paths ([posixpath]) *)

Module Path.

(** The text before and after the last [sep] of [s]. *)
Definition split_last (sep : ascii) (s : pystr) : option (pystr * pystr) :=
  match split_first sep (rev s) with
  | Some (a, b) => Some (rev b, rev a)
  | None => None
  end.

Definition slash : ascii := "/"%char.

Definition basename (p : pystr) : pystr :=
  match split_last slash p with
  | Some (_, tail) => tail
  | None => p
  end.

Definition dirname (p : pystr) : pystr :=
  match split_last slash p with
  | Some (before, _) =>
      let head := before ++ [slash] in
      if forallb (Ascii.eqb slash) head then head
      else rstrip_chars [slash] head
  | None => []
  end.

(** [os.path.splitext]: the extension starts at the last dot of the last
    component, unless only dots precede it there. *)
Definition splitext (p : pystr) : pystr * pystr :=
  let name := basename p in
  match split_last "."%char name with
  | Some (stem, ext) =>
      if forallb (Ascii.eqb "."%char) stem then (p, [])
      else (firstn (length p - S (length ext)) p, "."%char :: ext)
  | None => (p, [])
  end.

Definition join (a b : pystr) : pystr :=
  if startswith [slash] b then b
  else if is_empty a || endswith [slash] a then a ++ b
  else a ++ [slash] ++ b.

End Path.

(** ** The session: cache, console and the objects open in PyMOL *)

(** What [print] was given: strings, or a list of names shown as such. *)
Inductive pyval :=
| VStr (s : pystr)
| VList (l : list pystr).

Record session := mk_session
  { cache : odict (option meta);
    console : list (list pyval);
    objects : list pystr }.

Definition print (args : list pyval) (s : session) : session :=
  mk_session (cache s) (console s ++ [args]) (objects s).

(** [_TS_META_CACHE[key] = meta] *)
Definition cache_store (key : pystr) (m : option meta) (s : session) : session :=
  mk_session (od_set (cache s) key m) (console s) (objects s).

(** [_TS_META_CACHE.get(key)]: a missing key and a stored [None] both give
    [None]. *)
Definition cache_get (s : session) (key : pystr) : option meta :=
  match od_get (cache s) key with
  | Some (Some m) => Some m
  | _ => None
  end.

Definition order : list pystr :=
  [str "STOICH"; str "AUTHOR"; str "METHOD"; str "SCORE"; str "MODEL"].

Definition friendly (k : pystr) : pystr :=
  match od_get _FRIENDLY k with Some l => l | None => k end.

Fixpoint print_fields (r : meta) (keys : list pystr) (any_printed : bool)
    (s : session) : session * bool :=
  match keys with
  | [] => (s, any_printed)
  | k :: more =>
      match meta_get r k with
      | Some v =>
          if truthy v
          then print_fields r more true
                 (print [VStr (friendly k ++ str ": " ++ v)] s)
          else print_fields r more any_printed s
      | None => print_fields r more any_printed s
      end
  end.

Definition _pretty_print_trimmed (key : pystr) (m : option meta)
    (s : session) : session :=
  let s := print [VStr (str "=== TS metadata for: " ++ key ++ str " ===")] s in
  match m with
  | Some r =>
      if meta_truthy m then
        let (s', any_printed) := print_fields r order false s in
        if any_printed then s'
        else print [VStr (str "  (no recognized metadata fields found)")] s'
      else print [VStr (str "  (no TS metadata available)")] s
  | None => print [VStr (str "  (no TS metadata available)")] s
  end.

Definition _find_ts_candidate (h : host) (pdb_path : pystr) : option pystr :=
  let base := fst (Path.splitext pdb_path) in
  let candidates :=
    [base ++ str ".ts"; base ++ str ".TS"; base ++ str "_TS.txt";
     base ++ str "_ts.txt"; base ++ str ".txt"] in
  match find (os_path_exists h) candidates with
  | Some c => Some c
  | None =>
      let d := if is_empty (Path.dirname pdb_path) then str "."
               else Path.dirname pdb_path in
      match os_listdir h d with
      | Some names =>
          find (os_path_isfile h)
            (map (Path.join d)
               (filter (fun fn =>
                          contains base fn && contains (str "TS") (upper fn)
                          && (endswith (str ".txt") (lower fn)
                              || endswith (str ".ts") (lower fn)))
                       names))
      | None => None
      end
  end.

Inductive resolved :=
| RPath (p : pystr)
| RObject (name : pystr)
| RNothing.

Definition _resolve_object_or_path (h : host) (s : session)
    (identifier : pystr) : resolved :=
  let p := expanduser h identifier in
  if os_path_exists h p
     && (endswith (str ".pdb") (lower p) || endswith (str ".ent") (lower p))
  then RPath p
  else if existsb (str_eqb identifier) (objects s) then RObject identifier
  else match filter (contains identifier) (objects s) with
       | [n] => RObject n
       | _ => RNothing
       end.

Record load_result := mk_load_result
  { lr_object : option pystr; lr_ts : option pystr; lr_meta : option meta }.

Definition load_resolved (h : host) (obj_name : pystr) (pdb_path ts_path : option pystr)
    (s : session) : session * load_result :=
  let '(ts, s) :=
    match ts_path with
    | Some t =>
        if truthy t then
          if os_path_exists h (expanduser h t) then (Some (expanduser h t), s)
          else (None,
                print [VStr (str "load_model_with_ts: provided TS not found:");
                       VStr (expanduser h t)] s)
        else (ts_path, s)
    | None => (None, s)
    end in
  let ts :=
    match pdb_path with
    | Some p => if negb (opt_truthy ts) && truthy p
                then _find_ts_candidate h p else ts
    | None => ts
    end in
  let m := match ts with
           | Some t => if truthy t
                       then _parse_ts_metadata h t default_max_header_lines
                       else None
           | None => None
           end in
  let s := cache_store obj_name m s in
  let s := print [VStr (str "load_model_with_ts: object:"); VStr obj_name;
                  VStr (str " (pdb loaded from: "
                        ++ (match pdb_path with
                            | Some p => if truthy p then p else str "already-open"
                            | None => str "already-open"
                            end) ++ str ")")] s in
  let s := match ts with
           | Some t =>
               if truthy t then print [VStr (str "TS used:"); VStr t] s
               else print [VStr (str "TS file: not found (searched common candidates).")] s
           | None =>
               print [VStr (str "TS file: not found (searched common candidates).")] s
           end in
  (_pretty_print_trimmed obj_name m s, mk_load_result (Some obj_name) ts m).

(** [cmd.load] belongs to PyMOL, outside the repository: it is taken as
    the function [cmd_load] from the path, the object name and the open
    objects to the objects open afterwards, [None] when it raises; the
    exception then ends [load_model_with_ts].  Nothing is assumed of it:
    it may open the object, open it under another name, or open nothing.
    [console] holds what the script prints, not what PyMOL writes. *)
Definition load_model_with_ts (h : host)
    (cmd_load : pystr -> pystr -> list pystr -> option (list pystr))
    (pdb_or_obj : pystr) (ts_path : option pystr) (s : session)
  : option (session * load_result) :=
  match _resolve_object_or_path h s pdb_or_obj with
  | RNothing =>
      Some (print [VStr (str "load_model_with_ts: neither file nor open object found for:");
                   VStr pdb_or_obj] s,
            mk_load_result None None None)
  | RPath pdb_path =>
      let obj_name := fst (Path.splitext (Path.basename pdb_path)) in
      match cmd_load pdb_path obj_name (objects s) with
      | Some objs =>
          Some (load_resolved h obj_name (Some pdb_path) ts_path
                  (mk_session (cache s) (console s) objs))
      | None => None
      end
  | RObject obj_name => Some (load_resolved h obj_name None ts_path s)
  end.

(** The object [attach_ts] attaches to, or the message it prints. *)
Definition resolve_target (objs : list pystr) (obj_identifier : pystr)
  : pystr + list pyval :=
  if existsb (str_eqb obj_identifier) objs then inl obj_identifier
  else match filter (contains obj_identifier) objs with
       | [n] => inl n
       | (_ :: _ :: _) as matches =>
           inr [VStr (str "attach_ts: ambiguous object identifier matched multiple objects:");
                VList matches]
       | [] =>
           inr [VStr (str "attach_ts: object not found (available objects):");
                VList objs]
       end.

Definition attach_ts (h : host) (ts_path obj_identifier : pystr)
    (s : session) : session :=
  let ts_path := expanduser h ts_path in
  if negb (os_path_exists h ts_path) then
    print [VStr (str "attach_ts: TS file not found:"); VStr ts_path] s
  else
    match resolve_target (objects s) obj_identifier with
    | inr message => print message s
    | inl obj_name =>
        let res := _parse_ts_metadata h ts_path default_max_header_lines in
        if negb (meta_truthy res) then
          print [VStr (str "attach_ts: parsing returned no metadata.")] s
        else
          let s := cache_store obj_name res s in
          let s := print [VStr (str "attach_ts: attached metadata from");
                          VStr (Path.basename ts_path);
                          VStr (str "to object"); VStr obj_name] s in
          _pretty_print_trimmed obj_name res s
    end.

(** *** [show_ts_info] *)

Definition is_ts_name (fn : pystr) : bool :=
  endswith (str ".txt") (lower fn) || endswith (str ".ts") (lower fn).

Definition _gather_candidates (h : host) (search_dirs : list pystr) : list pystr :=
  flat_map
    (fun d =>
       if negb (os_path_isdir h d) then []
       else match os_listdir h d with
            | Some names => map (Path.join d) (filter is_ts_name names)
            | None => []
            end)
    search_dirs.

Definition search_dirs (h : host) : list pystr :=
  [getcwd h; Path.join (script_dir h) (str "examples"); script_dir h;
   expanduser h (str "~")].

(** The loop over the open objects, entered with [chosen is None]; it
    returns [chosen] and the key, which the loop may replace by the name
    of an object. *)
Fixpoint object_loop (candidates objs : list pystr) (chosen : option pystr)
    (key : pystr) : option pystr * pystr :=
  match objs with
  | [] => (chosen, key)
  | n :: more =>
      if str_eqb key n || contains key n then
        match find (fun path => contains (upper n) (upper (Path.basename path)))
                candidates with
        | Some path =>
            if truthy path then (Some path, n)
            else object_loop candidates more (Some path) n
        | None =>
            if opt_truthy chosen then (chosen, key)
            else object_loop candidates more chosen key
        end
      else object_loop candidates more chosen key
  end.

Definition discover (h : host) (s : session) (key : pystr) : option pystr * pystr :=
  let candidates := _gather_candidates h (search_dirs h) in
  let key_up := upper key in
  let is_base path :=
    str_eqb (upper (fst (Path.splitext (Path.basename path)))) key_up in
  let basematches := filter is_base candidates in
  let substrmatches :=
    filter (fun path => negb (is_base path)
                        && contains key_up (upper (Path.basename path)))
           candidates in
  let chosen :=
    match basematches with
    | b :: _ => Some b
    | [] => match substrmatches with
            | c :: _ => Some c
            | [] => None
            end
    end in
  match chosen with
  | None => object_loop candidates (objects s) None key
  | Some _ => (chosen, key)
  end.

Definition _show_for_key (h : host) (key : pystr) (explicit_ts : option pystr)
    (s : session) : bool * session :=
  match cache_get s key with
  | Some m => (true, _pretty_print_trimmed key (Some m) s)
  | None =>
      match explicit_ts with
      | Some ((_ :: _) as ts) =>
          let ts_expanded := expanduser h ts in
          if os_path_exists h ts_expanded && os_path_isfile h ts_expanded then
            let parsed := _parse_ts_metadata h ts_expanded default_max_header_lines in
            if meta_truthy parsed then
              let s := cache_store key parsed s in
              let s := print [VStr (str "show_ts_info: parsed and cached TS from: "
                                    ++ ts_expanded ++ str " -> key: " ++ key)] s in
              (true, _pretty_print_trimmed key parsed s)
            else
              (false, print [VStr (str "show_ts_info: parsing failed for:");
                             VStr ts_expanded] s)
          else
            (false, print [VStr (str "show_ts_info: provided TS path not found:");
                           VStr ts] s)
      | _ =>
          match discover h s key with
          | (Some chosen, key) =>
              if truthy chosen then
                let parsed := _parse_ts_metadata h chosen default_max_header_lines in
                if meta_truthy parsed then
                  let s := cache_store key parsed s in
                  let s := print [VStr (str "show_ts_info: found TS '"
                                        ++ Path.basename chosen
                                        ++ str "' -> parsed & cached under key: "
                                        ++ key)] s in
                  (true, _pretty_print_trimmed key parsed s)
                else
                  (false, print [VStr (str "show_ts_info: found candidate TS but parsing failed:");
                                 VStr chosen] s)
              else (false, s)
          | (None, _) => (false, s)
          end
      end
  end.

Definition not_found_hint (target : pystr) (s : session) : session :=
  print [VStr (str "You can run: parse_ts /path/to/TS.txt  OR  show_ts_info <object_name>, /path/to/TS.txt")]
    (print [VStr (str "show_ts_info: no metadata cached for '" ++ target
                  ++ str "' and no TS file found automatically.")] s).

Definition show_target (h : host) (target : pystr) (ts_path : option pystr)
    (s : session) : session :=
  let (ok, s) := _show_for_key h target ts_path s in
  if ok then s else not_found_hint target s.

Fixpoint print_numbered (i : nat) (objs : list pystr) (s : session) : session :=
  match objs with
  | [] => s
  | n :: more =>
      print_numbered (S i) more
        (print [VStr (str "  " ++ str_of_nat i ++ str ") " ++ n)] s)
  end.

(** [int(sel)] for a string of decimal digits. *)
Definition int_of_digits (sel : pystr) : nat :=
  fold_left (fun acc c => 10 * acc + (nat_of_ascii c - 48)) sel 0.

Definition show_ts_info (h : host) (obj_or_key ts_path : option pystr)
    (s : session) : session :=
  match obj_or_key with
  | Some ((_ :: _) as key) =>
      let (ok, s) := _show_for_key h key ts_path s in
      if ok then s
      else
        let s := print [VStr (str "show_ts_info: no cached metadata for '" ++ key
                              ++ str "' and no TS file found automatically.")] s in
        let s := print [VStr (str "Options:")] s in
        let s := print [VStr (str "  1) Run parse_ts /path/to/that_TS.txt (caches under TS basename).")] s in
        let s := print [VStr (str "  2) Call with explicit TS path to parse & attach now:")] s in
        print [VStr (str "       show_ts_info <object_or_key>, /full/path/to/that_TS.txt")] s
  | _ =>
      let objs := objects s in
      match objs with
      | [] =>
          print [VStr (str "show_ts_info: no open objects in PyMOL. Load a model or run parse_ts/show_ts_info <name>.")] s
      | [target] =>
          show_target h target ts_path
            (print [VStr (str "show_ts_info: one object open, using:"); VStr target] s)
      | _ =>
          let s := print [VStr (str "show_ts_info: multiple objects are open. Please choose which model to show:")] s in
          let s := print_numbered 1 objs s in
          (* the prompt of [input] goes to the console as well *)
          let s := print [VStr (str "Enter number or exact object name (or press Enter to cancel): ")] s in
          let sel := match stdin h with Some line => strip line | None => [] end in
          if is_empty sel then
            print [VStr (str "   show_ts_info <object_name>")]
              (print [VStr (str "show_ts_info: selection cancelled. Re-run with the chosen name, e.g.:")] s)
          else if forallb isdigit sel then
            let n := int_of_digits sel in
            if (1 <=? n) && (n <=? length objs) then
              let chosen_obj := nth (n - 1) objs [] in
              show_target h chosen_obj ts_path
                (print [VStr (str "show_ts_info: you selected:"); VStr chosen_obj] s)
            else print [VStr (str "show_ts_info: invalid number selection.")] s
          else if existsb (str_eqb sel) objs then show_target h sel ts_path s
          else
            match filter (contains sel) objs with
            | [chosen_obj] => show_target h chosen_obj ts_path s
            | (_ :: _ :: _) as matches =>
                print [VStr (str "Please call show_ts_info with the exact object name.")]
                  (print [VStr (str "show_ts_info: ambiguous name matched multiple objects:");
                          VList matches] s)
            | [] =>
                fold_left (fun s n => print [VStr (str "  "); VStr n] s) objs
                  (print [VStr (str "Available objects:")]
                     (print [VStr (str "show_ts_info: no open object matched your input.")] s))
            end
      end
  end.

(** * Vocabulary of the properties *)

(** ** Rendering *)

Definition header_line (key : pystr) : list pyval :=
  [VStr (str "=== TS metadata for: " ++ key ++ str " ===")].
Definition no_metadata_notice : list pyval :=
  [VStr (str "  (no TS metadata available)")].
Definition no_fields_notice : list pyval :=
  [VStr (str "  (no recognized metadata fields found)")].

(** The listing as the specification words it: the five fields in the
    order STOICH, AUTHOR, METHOD, SCORE, MODEL under their labels, the
    empty ones left out. *)
Definition listing (r : meta) : list (list pyval) :=
  flat_map
    (fun kl =>
       match meta_get r (fst kl) with
       | Some v => if truthy v then [[VStr (snd kl ++ str ": " ++ v)]] else []
       | None => []
       end)
    [ (str "STOICH", str "Stoichiometry"); (str "AUTHOR", str "Author");
      (str "METHOD", str "Method"); (str "SCORE", str "Score(s)");
      (str "MODEL", str "Model") ].

Definition lines_for (r : meta) (keys : list pystr) : list (list pyval) :=
  flat_map
    (fun k =>
       match meta_get r k with
       | Some v => if truthy v then [[VStr (friendly k ++ str ": " ++ v)]] else []
       | None => []
       end)
    keys.

(** ** Header lines *)

(** The line ends the header scan. *)
Definition stops (raw : pystr) : bool :=
  _looks_like_coordinate_line (rstrip_nl raw).

(** The canonical key recognized on a header line that is neither blank,
    nor coordinate-like, nor a remark. *)
Definition recognized (raw : pystr) : option pystr :=
  let line := rstrip_nl raw in
  if is_empty (strip line) then None
  else if _looks_like_coordinate_line line then None
  else if startswith (str "REMARK") (strip (upper line)) then None
  else _identify_canonical_key (upper line) (left_token_of line).

(** The value extracted from a recognized line. *)
Definition extracted (raw : pystr) : pystr :=
  _clean_leading_fragment (_extract_value_from_line (rstrip_nl raw)).

(** A value the parser discards as noise. *)
Definition is_noise (val : pystr) : bool :=
  _looks_like_coordinate_line val || matched (re_match re_digits_token val).

(** The assignment [out[canon] = val] the line performs, if any. *)
Definition stored (raw : pystr) : option (pystr * pystr) :=
  match recognized raw with
  | Some canon =>
      if is_noise (extracted raw) then None
      else if truthy (extracted raw) then Some (canon, extracted raw)
      else None
  | None => None
  end.

Definition stores_to (k raw : pystr) : bool :=
  match stored raw with
  | Some (canon, _) => str_eqb canon k
  | None => false
  end.

Definition line_tag (i : nat) : pystr := str "LINE_" ++ str_of_nat i.

(** The buckets a header line can go to, as the change of the parser
    state it causes: none, the remarks, one canonical field, one new
    generic key of [other], or one new [LINE_<i>] key of [other]. *)
Inductive attributed (i : nat) (raw : pystr) (st : pstate) : pstate -> Prop :=
| to_nothing :
    attributed i raw st st
| to_remarks :
    attributed i raw st
      (set_remarks st (remarks st ++ [strip (rstrip_nl raw)]))
| to_field canon val :
    stored raw = Some (canon, val) ->
    attributed i raw st (set_out st (od_set (out st) canon (Some val)))
| to_other_key m :
    recognized raw = None ->
    re_match re_generic (rstrip_nl raw) = Some m ->
    od_mem (other st) (strip (nth 0 (groups m) [])) = false ->
    attributed i raw st
      (set_other st (other st ++ [(strip (nth 0 (groups m) []),
                                   strip (nth 1 (groups m) []))]))
| to_other_line :
    recognized raw = None ->
    re_match re_generic (rstrip_nl raw) = None ->
    od_mem (other st) (line_tag i) = false ->
    attributed i raw st
      (set_other st (other st ++ [(line_tag i, strip (rstrip_nl raw))])).

(** The first number in a score value, or the value itself when it holds
    none. *)
Definition numeric_part (v : pystr) : pystr :=
  match re_search re_number v with
  | Some m => whole m
  | None => v
  end.

(** A regular expression that cannot match the empty string. *)
Fixpoint nullable (r : regex) : bool :=
  match r with
  | RChar _ => false
  | RRep _ lo _ _ => lo =? 0
  | RSeq a b => nullable a && nullable b
  | RAlt a b => nullable a || nullable b
  | RGroup a => nullable a
  | REnd => true
  end.

(** One of the eight canonical keys. *)
Definition canonical (k : pystr) : bool :=
  existsb (str_eqb k) (od_keys _KEY_ALIASES).

(** ** Example inputs *)

Definition atom_line : pystr :=
  str "ATOM      1  N   ALA A   1      11.104  13.207   2.428  1.00 20.00           N".

Definition score_line : pystr := str "SCORE: GDT 0.8231 (model 1)".

(** The two lines [A: 2] and [B: 3]. *)
Definition ab_text : pystr := str "A: 2" ++ nl ++ str "B: 3" ++ nl.

(** A working directory holding [m1.txt]; the object [m1] is open. *)
Definition demo_host : host :=
  mk_host
    (table_fs
       [ (str "/work", Dir (Some [str "m1.txt"; str "notes.md"]));
         (str "/work/m1.txt", File (str "AUTHOR: Bob" ++ nl) None false);
         (str "/work/atom.txt", File (atom_line ++ nl) None false);
         (str "/work/atom2.txt",
          File (atom_line ++ nl ++ str "AUTHOR: Eve" ++ nl) None false);
         (str "/work/scores.txt",
          File (str "REMARK first" ++ nl ++ score_line ++ nl
                ++ str "AUTHOR: Bob" ++ nl) None false) ])
    (str "/work") (str "/opt/script")
    (fun p => if str_eqb p (str "~") then str "/home/u" else p)
    None.

Definition demo_session : session := mk_session [] [] [str "m1"].

Definition not_found_notice (ts_path : pystr) : list pyval :=
  [VStr (str "attach_ts: TS file not found:"); VStr ts_path].

Definition parse_failed_notice : list pyval :=
  [VStr (str "attach_ts: parsing returned no metadata.")].

Definition attached_notice (ts_path obj_name : pystr) : list pyval :=
  [VStr (str "attach_ts: attached metadata from"); VStr (Path.basename ts_path);
   VStr (str "to object"); VStr obj_name].

(** A file of [n] remark lines followed by an author line. *)
Definition long_header (n : nat) : pystr :=
  concat (repeat (str "REMARK x" ++ nl) n) ++ str "AUTHOR: Bob" ++ nl.

(** * Further commands and vocabulary *)

(** ** [parse_ts] *)

Record parse_entry := mk_parse_entry
  { pe_key : pystr; pe_ts : pystr; pe_meta : option meta }.

(** [os.path.splitext(os.path.basename(path))[0]] *)
Definition ts_key (path : pystr) : pystr :=
  fst (Path.splitext (Path.basename path)).

(** The loop of [parse_ts] over the matched paths. *)
Fixpoint parse_each (h : host) (paths : list pystr) (s : session)
  : session * list parse_entry :=
  match paths with
  | [] => (s, [])
  | path :: more =>
      let key := ts_key path in
      let m := _parse_ts_metadata h path default_max_header_lines in
      let s := _pretty_print_trimmed key m (cache_store key m s) in
      let (s', results) := parse_each h more s in
      (s', mk_parse_entry key path m :: results)
  end.

(** [glob.glob] belongs to the standard library and reads the file system:
    it is taken as the function [glob] from patterns to matched paths. *)
Definition parse_ts (h : host) (glob : pystr -> list pystr)
    (ts_pattern : pystr) (s : session) : session * list parse_entry :=
  match glob (expanduser h ts_pattern) with
  | [] =>
      let p := expanduser h ts_pattern in
      if os_path_exists h p then parse_each h [p] s
      else (print [VStr (str "parse_ts: no files matched pattern:");
                   VStr ts_pattern] s, [])
  | matches => parse_each h matches s
  end.

(** ** Vocabulary of the further properties *)

(** The paths [parse_ts] works on: what the pattern matches, or the path
    itself when nothing matches but it exists. *)
Definition matched_paths (h : host) (glob : pystr -> list pystr)
    (ts_pattern : pystr) : list pystr :=
  match glob (expanduser h ts_pattern) with
  | [] => if os_path_exists h (expanduser h ts_pattern)
          then [expanduser h ts_pattern] else []
  | matches => matches
  end.

(** The lines [print_numbered] writes. *)
Fixpoint numbered_lines (i : nat) (objs : list pystr) : list (list pyval) :=
  match objs with
  | [] => []
  | n :: more =>
      [VStr (str "  " ++ str_of_nat i ++ str ") " ++ n)]
        :: numbered_lines (S i) more
  end.

Definition choose_notice : list pyval :=
  [VStr (str "show_ts_info: multiple objects are open. Please choose which model to show:")].
Definition prompt_notice : list pyval :=
  [VStr (str "Enter number or exact object name (or press Enter to cancel): ")].

(** Some alias of the table occurs in the upper-case line. *)
Definition alias_occurs (line_upper : pystr) : bool :=
  existsb (fun e => existsb (fun a => contains a line_upper) (snd e)) _KEY_ALIASES.

Definition entry_of (h : host) (path : pystr) : parse_entry :=
  mk_parse_entry (ts_key path) path
    (_parse_ts_metadata h path default_max_header_lines).


(** A non-blank line whose trimmed upper-case text starts with REMARK. *)
Definition is_remark_line (raw : pystr) : bool :=
  negb (is_empty (strip (rstrip_nl raw)))
  && startswith (str "REMARK") (strip (upper (rstrip_nl raw))).

(** The lines the header loop passes: those before the first
    coordinate-like line whose index does not exceed the cap. *)
Fixpoint header_prefix (mx i : nat) (lines : list pystr) : list pystr :=
  match lines with
  | [] => []
  | raw :: more =>
      if mx <? i then []
      else if stops raw then []
      else raw :: header_prefix mx (S i) more
  end.

(** Keys are distinct, and neither keys nor values are empty. *)
Definition other_ok (o : odict pystr) : Prop :=
  NoDup (od_keys o) /\ Forall (fun e => fst e <> [] /\ snd e <> []) o.

(** The record of a file that yields nothing. *)
Definition empty_record : meta :=
  mk_meta (map (fun k => (k, None)) (od_keys _KEY_ALIASES)) [] None.

(** [b] occurs in [a] as a contiguous piece. *)
Definition substring (b a : pystr) : Prop :=
  exists pre post, a = pre ++ b ++ post.

(** [Some s] for a non-empty string. *)
Definition nonempty (s : pystr) : option pystr :=
  if truthy s then Some s else None.

(** The candidate the auto-discovery picks by name alone: the first file
    whose base name equals the key, else the first whose name contains it,
    both without regard to case. *)
Definition chosen_by_name (h : host) (key : pystr) : option pystr :=
  let candidates := _gather_candidates h (search_dirs h) in
  match filter (fun path =>
                  str_eqb (upper (fst (Path.splitext (Path.basename path))))
                          (upper key)) candidates with
  | b :: _ => Some b
  | [] =>
      match filter (fun path => contains (upper key) (upper (Path.basename path)))
              candidates with
      | c :: _ => Some c
      | [] => None
      end
  end.

(** Every string the expression matches holds a character of class [q]. *)
Inductive Demands (q : ascii -> bool) : regex -> Prop :=
| demands_char p :
    (forall c, p c = true -> q c = true) -> Demands q (RChar p)
| demands_rep p lo hi g :
    (forall c, p c = true -> q c = true) -> 0 < lo -> Demands q (RRep p lo hi g)
| demands_seq_l a b : Demands q a -> Demands q (RSeq a b)
| demands_seq_r a b : Demands q b -> Demands q (RSeq a b)
| demands_alt a b : Demands q a -> Demands q b -> Demands q (RAlt a b)
| demands_group a : Demands q a -> Demands q (RGroup a).

(** Every character the expression consumes is of class [q]. *)
Inductive Within (q : ascii -> bool) : regex -> Prop :=
| within_char p :
    (forall c, p c = true -> q c = true) -> Within q (RChar p)
| within_rep p lo hi g :
    (forall c, p c = true -> q c = true) -> Within q (RRep p lo hi g)
| within_seq a b : Within q a -> Within q b -> Within q (RSeq a b)
| within_alt a b : Within q a -> Within q b -> Within q (RAlt a b)
| within_group a : Within q a -> Within q (RGroup a)
| within_end : Within q REnd.

(** The characters a number is written with. *)
Definition number_char (c : ascii) : bool :=
  isdigit c || char_in (str "-+.") c.

Definition coordinate_tags : list pystr :=
  [str "ATOM"; str "HETATM"; str "TER"; str "ENDMDL"].


(** A directory with two TS files of the same base name, a file with
    generic lines, an empty file and a model with its TS file. *)
Definition demo_host2 : host :=
  mk_host
    (table_fs
       [ (str "/d", Dir (Some [str "a.ts"; str "a.txt"; str "b.txt";
                               str "empty.txt"; str "model.pdb"; str "model.ts"]));
         (str "/d/a.ts", File (str "AUTHOR: Bob" ++ nl ++ str "TITLE: x" ++ nl) None false);
         (str "/d/a.txt", File (str "AUTHOR: Bob" ++ nl ++ str "METHOD: y" ++ nl) None false);
         (str "/d/b.txt",
          File (str "REMARK r1" ++ nl ++ str "foo: 1" ++ nl ++ str "foo: 2" ++ nl
                ++ str "plain text" ++ nl) None false);
         (str "/d/b2.txt",
          File (str "REMARK r1" ++ nl ++ str "foo: 1" ++ nl ++ str "foo: 2" ++ nl
                ++ str "plain text" ++ nl ++ str "bar - 3" ++ nl
                ++ str "REMARK r2" ++ nl) None false);
         (str "/d/empty.txt", File [] None false);
         (str "/d/model.pdb", File (atom_line ++ nl) None false);
         (str "/d/model.ts", File (str "SCORE: 0.5" ++ nl) None false) ])
    (str "/d") (str "/opt/script")
    (fun p => if str_eqb p (str "~") then str "/home/u" else p)
    (Some (str "2" ++ nl)).

Definition demo_glob2 (pattern : pystr) : list pystr :=
  if str_eqb pattern (str "/d/a.*") then [str "/d/a.ts"; str "/d/a.txt"]
  else [].

(** * Buckets, tokens and notices *)

(** ** Buckets *)

(** Where the header loop puts a line. *)
Inductive bucket :=
| NoBucket
| InRemarks (text : pystr)
| InField (canon val : pystr)
| InOtherKey (gk gv : pystr)
| InOtherLine (tag text : pystr).

Definition put (b : bucket) (st : pstate) : pstate :=
  match b with
  | NoBucket => st
  | InRemarks text => set_remarks st (remarks st ++ [text])
  | InField canon val => set_out st (od_set (out st) canon (Some val))
  | InOtherKey gk gv => set_other st (other st ++ [(gk, gv)])
  | InOtherLine tag text => set_other st (other st ++ [(tag, text)])
  end.

(** The trimmed key and value of a line of the generic shape
    [key : value] or [key - value]. *)
Definition generic_pair (raw : pystr) : option (pystr * pystr) :=
  match re_match re_generic (rstrip_nl raw) with
  | Some m => Some (strip (nth 0 (groups m) []), strip (nth 1 (groups m) []))
  | None => None
  end.

(** The bucket of a non-blank header line with index [i], given the
    [other] mapping filled so far, in the words of the specification; the
    three cases without bucket say when a line is dropped. *)
Inductive bucket_of (i : nat) (raw : pystr) (o : odict pystr) : bucket -> Prop :=
| in_remarks :
    is_remark_line raw = true ->
    bucket_of i raw o (InRemarks (strip (rstrip_nl raw)))
| in_field canon val :
    is_remark_line raw = false ->
    stored raw = Some (canon, val) ->
    bucket_of i raw o (InField canon val)
| field_discarded canon :
    is_remark_line raw = false ->
    recognized raw = Some canon ->
    is_noise (extracted raw) = true \/ extracted raw = [] ->
    bucket_of i raw o NoBucket
| in_other_key gk gv :
    is_remark_line raw = false ->
    recognized raw = None ->
    generic_pair raw = Some (gk, gv) ->
    gk <> [] -> gv <> [] -> od_mem o gk = false ->
    bucket_of i raw o (InOtherKey gk gv)
| generic_discarded gk gv :
    is_remark_line raw = false ->
    recognized raw = None ->
    generic_pair raw = Some (gk, gv) ->
    gk = [] \/ gv = [] \/ od_mem o gk = true ->
    bucket_of i raw o NoBucket
| in_other_line :
    is_remark_line raw = false ->
    recognized raw = None ->
    generic_pair raw = None ->
    length (strip (rstrip_nl raw)) < 300 ->
    od_mem o (line_tag i) = false ->
    bucket_of i raw o (InOtherLine (line_tag i) (strip (rstrip_nl raw)))
| line_discarded :
    is_remark_line raw = false ->
    recognized raw = None ->
    generic_pair raw = None ->
    300 <= length (strip (rstrip_nl raw)) \/ od_mem o (line_tag i) = true ->
    bucket_of i raw o NoBucket.

(** ** The stoichiometry *)

(** The value the header loop leaves under [k] for these lines. *)
Definition header_value (mx : nat) (lines : list pystr) (k : pystr)
  : option pystr :=
  get_opt (out (header_loop mx 0 lines init_pstate)) k.

(** What the pass after the loop finds in the whole text of the file. *)
Definition synthesized (h : host) (ts_path : pystr) : option pystr :=
  match _find_stoich_tokens_in_text (_collect_all_text h ts_path) with
  | Some found => nonempty found
  | None => None
  end.





(** ** More examples *)

(** A [cmd.load] that opens the object under the given name. *)
Definition demo_load (path name : pystr) (objs : list pystr)
  : option (list pystr) :=
  Some (objs ++ [name]).

(** What [show_ts_info] prints for a key it could not show. *)
Definition options_notice (key : pystr) : list (list pyval) :=
  [ [VStr (str "show_ts_info: no cached metadata for '" ++ key
           ++ str "' and no TS file found automatically.")];
    [VStr (str "Options:")];
    [VStr (str "  1) Run parse_ts /path/to/that_TS.txt (caches under TS basename).")];
    [VStr (str "  2) Call with explicit TS path to parse & attach now:")];
    [VStr (str "       show_ts_info <object_or_key>, /full/path/to/that_TS.txt")] ].

(** The record as [_pretty_print_trimmed] prints it, heading included. *)
Definition rendering (key : pystr) (r : meta) : list (list pyval) :=
  header_line key ::
  (if is_empty (listing r) then [no_fields_notice] else listing r).

(** * Properties *)

(** ** Strings and dictionaries *)

Lemma str_eqb_refl (a : pystr) : str_eqb a a = true.
Proof.
  induction a as [|c a IH]; simpl; [reflexivity|].
  now rewrite Ascii.eqb_refl, IH.
Qed.

Lemma str_eqb_eq (a b : pystr) : str_eqb a b = true <-> a = b.
Proof.
  split.
  - revert b. induction a as [|x a IH]; destruct b as [|y b]; simpl;
      try discriminate; try reflexivity.
    intros H. apply andb_true_iff in H as [Hc Ht].
    apply Ascii.eqb_eq in Hc. subst y. now rewrite (IH b Ht).
  - intros ->. apply str_eqb_refl.
Qed.

Lemma str_eqb_neq (a b : pystr) : str_eqb a b = false <-> a <> b.
Proof.
  split.
  - intros H E. apply str_eqb_eq in E. congruence.
  - intros N. destruct (str_eqb a b) eqn:E; [|reflexivity].
    apply str_eqb_eq in E. contradiction.
Qed.

Lemma od_get_set {V} (d : odict V) (k k' : pystr) (v : V) :
  od_get (od_set d k v) k' = if str_eqb k k' then Some v else od_get d k'.
Proof.
  induction d as [|[k0 v0] d IH]; simpl.
  - reflexivity.
  - destruct (str_eqb k0 k) eqn:E0; simpl.
    + apply str_eqb_eq in E0. subst k0.
      destruct (str_eqb k k'); reflexivity.
    + destruct (str_eqb k0 k') eqn:E1.
      * apply str_eqb_eq in E1. subst k0.
        apply str_eqb_neq in E0.
        destruct (str_eqb k k') eqn:E2; [|reflexivity].
        apply str_eqb_eq in E2. congruence.
      * exact IH.
Qed.

Lemma od_keys_set_mem {V} (d : odict V) (k : pystr) (v : V) :
  od_mem d k = true -> od_keys (od_set d k v) = od_keys d.
Proof.
  unfold od_mem, od_keys. induction d as [|[k0 v0] d IH]; simpl.
  - discriminate.
  - destruct (str_eqb k0 k); simpl; [reflexivity|].
    intros H. now rewrite IH.
Qed.

Lemma get_opt_set (d : odict (option pystr)) (k k' : pystr) (v : option pystr) :
  get_opt (od_set d k v) k' = if str_eqb k k' then v else get_opt d k'.
Proof.
  unfold get_opt. rewrite od_get_set.
  destruct (str_eqb k k'); [destruct v|]; reflexivity.
Qed.

(** ** Rendering *)

Lemma print_fields_spec (r : meta) (keys : list pystr) :
  forall any s,
    print_fields r keys any s =
    (mk_session (cache s) (console s ++ lines_for r keys) (objects s),
     any || negb (is_empty (lines_for r keys))).
Proof.
  induction keys as [|k keys IH]; intros any s; simpl.
  - rewrite app_nil_r, orb_false_r. now destruct s.
  - unfold lines_for in *. simpl.
    destruct (meta_get r k) as [v|]; [destruct (truthy v)|]; rewrite IH; simpl.
    + rewrite <- app_assoc, orb_true_r. reflexivity.
    + reflexivity.
    + reflexivity.
Qed.

Lemma meta_truthy_some (r : meta) : meta_truthy (Some r) = true.
Proof.
  unfold meta_truthy, meta_len. apply Nat.ltb_lt. lia.
Qed.

Lemma pretty_print_console (key : pystr) (m : option meta) (s : session) :
  _pretty_print_trimmed key m s =
  mk_session (cache s)
    (console s ++ header_line key ::
       match m with
       | None => [no_metadata_notice]
       | Some r => if is_empty (listing r) then [no_fields_notice] else listing r
       end)
    (objects s).
Proof.
  unfold _pretty_print_trimmed. destruct m as [r|].
  - rewrite meta_truthy_some, print_fields_spec.
    change (lines_for r order) with (listing r).
    unfold print. cbn [cache console objects].
    destruct (listing r) as [|l ls]; cbn [is_empty negb orb cache console objects].
    + rewrite app_nil_r, <- app_assoc. reflexivity.
    + rewrite <- app_assoc. reflexivity.
  - unfold print. cbn [cache console objects].
    rewrite <- app_assoc. reflexivity.
Qed.

(** C7. Rendering prints the heading, then the non-empty ones of STOICH,
    AUTHOR, METHOD, SCORE, MODEL in that order under the labels
    Stoichiometry, Author, Method, Score(s), Model; when none of them is
    non-empty it prints the one notice that no recognized fields were found,
    and for an absent record the notice that no TS metadata is available.
    Nothing but the console changes. *)
Theorem render_fixed_order (key : pystr) (m : option meta) (s : session) :
  cache (_pretty_print_trimmed key m s) = cache s /\
  objects (_pretty_print_trimmed key m s) = objects s /\
  console (_pretty_print_trimmed key m s) =
    console s ++ header_line key ::
      match m with
      | None => [no_metadata_notice]
      | Some r => if is_empty (listing r) then [no_fields_notice] else listing r
      end.
Proof.
  rewrite pretty_print_console. simpl. auto.
Qed.

(** ** The matcher consumes what it matches *)

Lemma rep_progress {R} (p : ascii -> bool) (g : bool) (s : pystr) :
  forall lo hi (k : pystr -> option R) res,
    rep p g lo hi s k = Some res ->
    exists s', k s' = Some res /\ length s' + lo <= length s.
Proof.
  induction s as [|c t IH]; intros lo hi k res H; simpl in H.
  - destruct (lo =? 0) eqn:E; [|discriminate].
    apply Nat.eqb_eq in E. exists []. simpl. split; [assumption|lia].
  - assert (Hstop : (if lo =? 0 then k (c :: t) else None) = Some res ->
                    exists s', k s' = Some res /\ length s' + lo <= length (c :: t)).
    { destruct (lo =? 0) eqn:E; [|discriminate].
      apply Nat.eqb_eq in E. intros Hk. exists (c :: t). split; [assumption|lia]. }
    assert (Hmore : rep p g (pred lo) (option_map pred hi) t k = Some res ->
                    exists s', k s' = Some res /\ length s' + lo <= length (c :: t)).
    { intros Hr. destruct (IH _ _ _ _ Hr) as (s' & Hk & Hl).
      exists s'. split; [assumption|simpl; lia]. }
    destruct (p c && more_allowed hi); [|auto].
    destruct g.
    + destruct (rep p true (pred lo) (option_map pred hi) t k) eqn:E; auto.
    + destruct (if lo =? 0 then k (c :: t) else None) eqn:E; auto.
Qed.

Lemma run_progress {R} (r : regex) :
  forall s caps (k : list span -> pystr -> option R) res,
    run r s caps k = Some res ->
    exists caps' s',
      k caps' s' = Some res /\
      length s' + (if nullable r then 0 else 1) <= length s.
Proof.
  induction r as [p|p lo hi g|a IHa b IHb|a IHa b IHb|a IHa|];
    intros s caps k res H; simpl in H.
  - destruct s as [|c t]; [discriminate|].
    destruct (p c); [|discriminate].
    exists caps, t. simpl. split; [assumption|lia].
  - apply rep_progress in H as (s' & Hk & Hl).
    exists caps, s'. split; [assumption|].
    simpl. destruct (lo =? 0) eqn:E; [lia|].
    apply Nat.eqb_neq in E. lia.
  - apply IHa in H as (c1 & s1 & H1 & L1).
    apply IHb in H1 as (c2 & s2 & H2 & L2).
    exists c2, s2. split; [assumption|]. simpl.
    destruct (nullable a), (nullable b); simpl; lia.
  - simpl. destruct (run a s caps k) eqn:E.
    + injection H as <-. apply IHa in E as (c1 & s1 & H1 & L1).
      exists c1, s1. split; [assumption|].
      destruct (nullable a); simpl; [lia|]. destruct (nullable b); lia.
    + apply IHb in H as (c1 & s1 & H1 & L1).
      exists c1, s1. split; [assumption|].
      destruct (nullable b); [rewrite orb_true_r; lia|].
      rewrite orb_false_r. destruct (nullable a); lia.
  - apply IHa in H as (c1 & s1 & H1 & L1).
    eexists _, s1. split; [exact H1|exact L1].
  - destruct s as [|c [|c' t]]; try discriminate.
    + exists caps, []. simpl. split; [assumption|lia].
    + destruct (Ascii.eqb c "010"%char); [|discriminate].
      exists caps, [c]. simpl. split; [assumption|lia].
Qed.

Lemma re_match_whole (r : regex) (s : pystr) (m : rmatch) :
  nullable r = false -> re_match r s = Some m -> whole m <> [].
Proof.
  intros Hn H. unfold re_match in H.
  apply run_progress in H as (caps & s' & Hk & Hl).
  rewrite Hn in Hl. injection Hk as <-. unfold cut. simpl.
  destruct s as [|c t]; simpl in Hl; [lia|].
  change (length (c :: t)) with (S (length t)).
  replace (S (length t) - length s') with (S (length t - length s')) by lia.
  simpl. discriminate.
Qed.

Lemma re_search_whole (r : regex) (s : pystr) (m : rmatch) :
  nullable r = false -> re_search r s = Some m -> whole m <> [].
Proof.
  intros Hn. induction s as [|c t IH]; simpl; intros H.
  - destruct (re_match r []) eqn:E; [|discriminate].
    injection H as <-. eapply re_match_whole; eassumption.
  - destruct (re_match r (c :: t)) eqn:E.
    + injection H as <-. eapply re_match_whole; eassumption.
    + auto.
Qed.

Lemma numeric_part_nonempty (v : pystr) : v <> [] -> numeric_part v <> [].
Proof.
  intros Hv. unfold numeric_part.
  destruct (re_search re_number v) eqn:E; [|assumption].
  eapply re_search_whole; [|exact E]. reflexivity.
Qed.

(** ** The header loop *)

Lemma coordinate_not_blank (s : pystr) :
  _looks_like_coordinate_line s = true -> is_empty (strip s) = false.
Proof.
  unfold _looks_like_coordinate_line.
  destruct (is_empty s); simpl; [discriminate|].
  destruct (is_empty (strip s)); [discriminate|reflexivity].
Qed.

Lemma loop_body_break (i : nat) (raw : pystr) (st : pstate) :
  stops raw = true -> loop_body i raw st = Break.
Proof.
  unfold stops, loop_body. intros H.
  rewrite (coordinate_not_blank _ H), H. reflexivity.
Qed.

Lemma od_set_new {V} (d : odict V) (k : pystr) (v : V) :
  od_mem d k = false -> od_set d k v = d ++ [(k, v)].
Proof.
  unfold od_mem. induction d as [|[k0 v0] d IH]; simpl; [reflexivity|].
  destruct (str_eqb k0 k); [discriminate|].
  intros H. now rewrite IH.
Qed.

(** Every pass through the loop body either ends the scan, on a
    coordinate-like line, or changes the state in one of the five ways. *)
Lemma loop_body_cases (i : nat) (raw : pystr) (st : pstate) :
  match loop_body i raw st with
  | Break => stops raw = true
  | Next st' => stops raw = false /\ attributed i raw st st'
  end.
Proof.
  unfold loop_body. cbv zeta.
  destruct (is_empty (strip (rstrip_nl raw))) eqn:Hblank.
  { split; [|constructor]. unfold stops.
    destruct (_looks_like_coordinate_line (rstrip_nl raw)) eqn:E; [|reflexivity].
    apply coordinate_not_blank in E. congruence. }
  destruct (_looks_like_coordinate_line (rstrip_nl raw)) eqn:Hcoord.
  { exact Hcoord. }
  destruct (startswith (str "REMARK") (strip (upper (rstrip_nl raw)))) eqn:Hrem.
  { split; [exact Hcoord|constructor]. }
  assert (Hrec : recognized raw =
                 _identify_canonical_key (upper (rstrip_nl raw))
                   (left_token_of (rstrip_nl raw))).
  { unfold recognized. cbv zeta. now rewrite Hblank, Hcoord, Hrem. }
  destruct (_identify_canonical_key (upper (rstrip_nl raw))
              (left_token_of (rstrip_nl raw))) as [canon|] eqn:Hid.
  - fold (extracted raw). fold (is_noise (extracted raw)).
    destruct (is_noise (extracted raw)) eqn:Hnoise.
    { split; [exact Hcoord|constructor]. }
    destruct (truthy (extracted raw)) eqn:Hval.
    + split; [exact Hcoord|]. apply to_field.
      unfold stored. now rewrite Hrec, Hnoise, Hval.
    + split; [exact Hcoord|constructor].
  - destruct (re_match re_generic (rstrip_nl raw)) as [m|] eqn:Hgen.
    + destruct (truthy (strip (nth 0 (groups m) []))
                && truthy (strip (nth 1 (groups m) []))
                && negb (od_mem (other st) (strip (nth 0 (groups m) [])))) eqn:Hc.
      * split; [exact Hcoord|].
        apply andb_true_iff in Hc as [_ Hmem]. apply negb_true_iff in Hmem.
        rewrite (od_set_new _ _ _ Hmem).
        apply to_other_key; assumption.
      * split; [exact Hcoord|constructor].
    + fold (line_tag i).
      destruct (truthy (rstrip_nl raw) && (length (strip (rstrip_nl raw)) <? 300));
        [|split; [exact Hcoord|constructor]].
      destruct (negb (od_mem (other st) (line_tag i))) eqn:Hmem;
        [|split; [exact Hcoord|constructor]].
      apply negb_true_iff in Hmem.
      split; [exact Hcoord|].
      rewrite (od_set_new _ _ _ Hmem).
      apply to_other_line; assumption.
Qed.

Lemma loop_body_next (i : nat) (raw : pystr) (st st' : pstate) :
  loop_body i raw st = Next st' -> stops raw = false /\ attributed i raw st st'.
Proof.
  intros H. pose proof (loop_body_cases i raw st) as C. now rewrite H in C.
Qed.

Lemma loop_body_total (i : nat) (raw : pystr) (st : pstate) :
  stops raw = false -> exists st', loop_body i raw st = Next st'.
Proof.
  intros H. pose proof (loop_body_cases i raw st) as C.
  destruct (loop_body i raw st) as [|st']; [congruence|eauto].
Qed.

Lemma stored_not_stop (raw k v : pystr) :
  stored raw = Some (k, v) -> stops raw = false /\ v <> [].
Proof.
  unfold stored, recognized, stops. cbv zeta.
  destruct (is_empty (strip (rstrip_nl raw))); [discriminate|].
  destruct (_looks_like_coordinate_line (rstrip_nl raw)); [discriminate|].
  destruct (startswith _ _); [discriminate|].
  destruct (_identify_canonical_key _ _); [|discriminate].
  destruct (is_noise _); [discriminate|].
  destruct (truthy (extracted raw)) eqn:E; [|discriminate].
  intros [= <- <-]. split; [reflexivity|].
  intros Hv. rewrite Hv in E. discriminate.
Qed.

Lemma loop_body_stored (i : nat) (raw k v : pystr) (st : pstate) :
  stored raw = Some (k, v) ->
  loop_body i raw st = Next (set_out st (od_set (out st) k (Some v))).
Proof.
  unfold stored, recognized, loop_body. cbv zeta.
  destruct (is_empty (strip (rstrip_nl raw))); [discriminate|].
  destruct (_looks_like_coordinate_line (rstrip_nl raw)); [discriminate|].
  destruct (startswith _ _); [discriminate|].
  destruct (_identify_canonical_key _ _); [|discriminate].
  fold (extracted raw). fold (is_noise (extracted raw)).
  destruct (is_noise _); [discriminate|].
  destruct (truthy (extracted raw)); [|discriminate].
  now intros [= <- <-].
Qed.

Lemma loop_body_keeps (i : nat) (raw k : pystr) (st st' : pstate) :
  loop_body i raw st = Next st' ->
  stores_to k raw = false ->
  od_get (out st') k = od_get (out st) k.
Proof.
  intros H Hk. apply loop_body_next in H as [_ A].
  destruct A as [| |canon val Hs| |]; try reflexivity.
  simpl. rewrite od_get_set.
  unfold stores_to in Hk. rewrite Hs in Hk. now rewrite Hk.
Qed.

(** Nothing after a coordinate-like line is looked at. *)
Lemma header_loop_stop (mx : nat) (pre : list pystr) (c : pystr)
    (post : list pystr) :
  stops c = true ->
  forall i st,
    header_loop mx i (pre ++ c :: post) st = header_loop mx i pre st.
Proof.
  intros Hc. induction pre as [|raw pre IH]; intros i st; simpl.
  - rewrite (loop_body_break _ _ _ Hc). now destruct (mx <? i).
  - destruct (mx <? i); [reflexivity|].
    destruct (loop_body i raw st); [reflexivity|apply IH].
Qed.

(** Lines that do not stop the scan and lie within the cap are all passed. *)
Lemma header_loop_reach (mx : nat) (pre rest : list pystr) :
  Forall (fun r => stops r = false) pre ->
  forall i st,
    i + length pre <= S mx ->
    header_loop mx i (pre ++ rest) st =
    header_loop mx (i + length pre) rest (header_loop mx i pre st).
Proof.
  induction 1 as [|raw pre Hraw _ IH]; intros i st Hlen; simpl in *.
  - now rewrite Nat.add_0_r.
  - assert (E : (mx <? i) = false) by (apply Nat.ltb_ge; lia).
    rewrite E.
    destruct (loop_body_total i raw st Hraw) as [st' Hst]. rewrite Hst.
    rewrite IH by lia. f_equal. lia.
Qed.

(** Lines past the cap are not looked at: at most [max_header_lines + 1]
    lines are. *)
Lemma header_loop_cap (mx : nat) (pre post : list pystr) :
  forall i st,
    S mx <= i + length pre ->
    header_loop mx i (pre ++ post) st = header_loop mx i pre st.
Proof.
  induction pre as [|raw pre IH]; intros i st Hlen; simpl in *.
  - destruct post as [|raw post]; [reflexivity|]. simpl.
    assert (E : (mx <? i) = true) by (apply Nat.ltb_lt; lia).
    now rewrite E.
  - destruct (mx <? i); [reflexivity|].
    destruct (loop_body i raw st); [reflexivity|].
    apply IH. lia.
Qed.

Lemma header_loop_keeps (mx : nat) (k : pystr) (lines : list pystr) :
  Forall (fun r => stores_to k r = false) lines ->
  forall i st,
    od_get (out (header_loop mx i lines st)) k = od_get (out st) k.
Proof.
  induction 1 as [|raw lines Hraw _ IH]; intros i st; simpl.
  - reflexivity.
  - destruct (mx <? i); [reflexivity|].
    destruct (loop_body i raw st) as [|st'] eqn:E; [reflexivity|].
    rewrite IH. eapply loop_body_keeps; eassumption.
Qed.

(** The last line that stores a value under [k] decides [out[k]]. *)
Lemma header_loop_last_store (mx : nat) (pre : list pystr) (raw : pystr)
    (post : list pystr) (k v : pystr) (st : pstate) :
  length pre <= mx ->
  Forall (fun r => stops r = false) pre ->
  stored raw = Some (k, v) ->
  Forall (fun r => stores_to k r = false) post ->
  od_get (out (header_loop mx 0 (pre ++ raw :: post) st)) k = Some (Some v).
Proof.
  intros Hlen Hpre Hraw Hpost.
  rewrite header_loop_reach by (assumption || simpl; lia).
  simpl.
  assert (E : (mx <? length pre) = false) by (apply Nat.ltb_ge; lia).
  rewrite E, (loop_body_stored _ _ _ _ _ Hraw).
  rewrite (header_loop_keeps _ _ _ Hpost). simpl.
  now rewrite od_get_set, str_eqb_refl.
Qed.

(** ** From the header state to the record *)

Lemma str_eqb_sym (a b : pystr) : str_eqb a b = str_eqb b a.
Proof.
  destruct (str_eqb a b) eqn:E.
  - apply str_eqb_eq in E. subst. symmetry. apply str_eqb_refl.
  - apply str_eqb_neq in E. symmetry. apply str_eqb_neq. congruence.
Qed.

Lemma od_get_tabulate {V} (f : pystr -> V) (keys : list pystr) (k : pystr) :
  od_get (map (fun k0 => (k0, f k0)) keys) k =
  if existsb (str_eqb k) keys then Some (f k) else None.
Proof.
  induction keys as [|k0 keys IH]; simpl; [reflexivity|].
  rewrite (str_eqb_sym k k0).
  destruct (str_eqb k0 k) eqn:E; simpl; [|exact IH].
  apply str_eqb_eq in E. now subst.
Qed.

Lemma build_fields (st : pstate) (o : odict (option pystr)) :
  fields (build_result st o) =
  map (fun k => (k, get_or_none o k)) (od_keys _KEY_ALIASES).
Proof. reflexivity. Qed.

Lemma meta_get_build (st : pstate) (o : odict (option pystr)) (k : pystr) :
  meta_get (build_result st o) k =
  if canonical k then get_or_none o k else None.
Proof.
  unfold meta_get, get_opt. rewrite build_fields, od_get_tabulate.
  fold (canonical k). destruct (canonical k); [|reflexivity].
  now destruct (get_or_none o k).
Qed.

Lemma post_stoich_kept (h : host) (p : pystr) (o : odict (option pystr)) :
  opt_truthy (get_opt o (str "STOICH")) = true -> post_stoich h p o = o.
Proof.
  unfold post_stoich. now intros ->.
Qed.

Lemma post_stoich_other (h : host) (p : pystr) (o : odict (option pystr))
    (k : pystr) :
  canonical k = true -> k <> str "STOICH" ->
  get_opt (post_stoich h p o) k = get_opt o k.
Proof.
  intros Hc Hk. unfold post_stoich.
  destruct (negb _ && negb _); [|reflexivity].
  destruct (_find_stoich_tokens_in_text _) as [found|]; [|reflexivity].
  destruct (truthy found); [|reflexivity].
  destruct (od_mem o (str "STOICH")); rewrite get_opt_set.
  - destruct (str_eqb (str "STOICH") k) eqn:E; [|reflexivity].
    apply str_eqb_eq in E. congruence.
  - destruct (str_eqb (str "STOICHIOMETRY") k) eqn:E; [|reflexivity].
    apply str_eqb_eq in E. subst k. discriminate.
Qed.

Lemma post_score_get (o : odict (option pystr)) (k : pystr) :
  get_opt (post_score o) k =
  if str_eqb (str "SCORE") k
  then option_map numeric_part (get_opt o (str "SCORE"))
  else get_opt o k.
Proof.
  assert (Hsame : forall v : option pystr,
             get_opt o (str "SCORE") = v ->
             get_opt o k = if str_eqb (str "SCORE") k then v else get_opt o k).
  { intros v Hv. destruct (str_eqb (str "SCORE") k) eqn:E; [|reflexivity].
    apply str_eqb_eq in E. now subst k. }
  unfold post_score, numeric_part.
  destruct (get_opt o (str "SCORE")) as [sc|] eqn:Hsc; cbn [option_map].
  - destruct (truthy sc) eqn:Ht.
    + destruct (re_search re_number sc) as [m|].
      * rewrite get_opt_set. reflexivity.
      * now apply Hsame.
    + destruct sc; [|discriminate].
      change (re_search re_number []) with (@None rmatch). now apply Hsame.
  - now apply Hsame.
Qed.

Lemma identify_canonical (up lt k : pystr) :
  _identify_canonical_key up lt = Some k -> canonical k = true.
Proof.
  assert (Hin : forall e, In e _KEY_ALIASES -> canonical (fst e) = true).
  { intros e He. unfold canonical. apply existsb_exists.
    exists (fst e). split; [|apply str_eqb_refl].
    unfold od_keys. now apply in_map. }
  unfold _identify_canonical_key.
  destruct (find _ _KEY_ALIASES) as [[c al]|] eqn:E1.
  - intros [= <-]. apply find_some in E1 as [He _]. exact (Hin _ He).
  - destruct (truthy lt); [|discriminate].
    destruct (find (fun e => contains (fst e) (lt ++ firstn 20 up)) _KEY_ALIASES)
      as [[c al]|] eqn:E2; [|discriminate].
    intros [= <-]. apply find_some in E2 as [He _]. exact (Hin _ He).
Qed.

Lemma stored_canonical (raw k v : pystr) :
  stored raw = Some (k, v) -> canonical k = true.
Proof.
  unfold stored, recognized. cbv zeta.
  destruct (is_empty _); [discriminate|].
  destruct (_looks_like_coordinate_line _); [discriminate|].
  destruct (startswith _ _); [discriminate|].
  destruct (_identify_canonical_key _ _) as [c|] eqn:E; [|discriminate].
  destruct (is_noise _); [discriminate|].
  destruct (truthy _); [|discriminate].
  intros [= <- _]. eapply identify_canonical; eassumption.
Qed.

Lemma exists_not_empty (h : host) (p : pystr) :
  os_path_exists h p = true -> is_empty p = false.
Proof.
  unfold os_path_exists, stat. now destruct (is_empty p).
Qed.

Lemma parse_exists (h : host) (p : pystr) (mx : nat) :
  os_path_exists h p = true ->
  _parse_ts_metadata h p mx =
  Some (let st := header_loop mx 0 (iter_lines h p) init_pstate in
        build_result st (post_score (post_stoich h p (out st)))).
Proof.
  intros H. unfold _parse_ts_metadata.
  now rewrite (exists_not_empty _ _ H), H.
Qed.

(** The field of the record for a key the header scan left a value in. *)
Lemma field_of_out (h : host) (p : pystr) (st : pstate) (k v : pystr) :
  canonical k = true -> v <> [] ->
  od_get (out st) k = Some (Some v) ->
  meta_get (build_result st (post_score (post_stoich h p (out st)))) k =
  Some (if str_eqb (str "SCORE") k then numeric_part v else v).
Proof.
  intros Hc Hv Hget.
  assert (Hopt : get_opt (out st) k = Some v) by (unfold get_opt; now rewrite Hget).
  assert (H1 : get_opt (post_stoich h p (out st)) k = Some v).
  { destruct (str_eqb (str "STOICH") k) eqn:E.
    - apply str_eqb_eq in E. subst k.
      rewrite post_stoich_kept; [assumption|].
      rewrite Hopt. simpl. now destruct v.
    - rewrite post_stoich_other; [assumption..|].
      apply str_eqb_neq in E. congruence. }
  rewrite meta_get_build, Hc. unfold get_or_none.
  rewrite post_score_get.
  destruct (str_eqb (str "SCORE") k) eqn:E.
  - apply str_eqb_eq in E. subst k. rewrite H1. simpl.
    pose proof (numeric_part_nonempty v Hv) as Hn.
    now destruct (numeric_part v).
  - rewrite H1. now destruct v.
Qed.

Lemma parse_last_store (h : host) (p : pystr) (mx : nat)
    (pre : list pystr) (raw : pystr) (post : list pystr) (k v : pystr) :
  os_path_exists h p = true ->
  iter_lines h p = pre ++ raw :: post ->
  length pre <= mx ->
  Forall (fun r => stops r = false) pre ->
  stored raw = Some (k, v) ->
  Forall (fun r => stores_to k r = false) post ->
  exists r,
    _parse_ts_metadata h p mx = Some r /\
    meta_get r k = Some (if str_eqb (str "SCORE") k then numeric_part v else v).
Proof.
  intros Hex Hlines Hlen Hpre Hraw Hpost.
  rewrite (parse_exists _ _ _ Hex). eexists. split; [reflexivity|].
  cbv zeta. rewrite Hlines.
  apply field_of_out.
  - eapply stored_canonical; eassumption.
  - eapply stored_not_stop; eassumption.
  - now apply header_loop_last_store.
Qed.

(** * The claims *)

(** ** The line cap *)

(** C3.  With the default cap of 2000, a file of 2000 remark lines followed
    by an author line has that line at index 2000; the scan reads it and
    fills AUTHOR from it.  One line further it is no longer read. *)
Theorem line_cap_off_by_one :
  nth_error (readlines (long_header 2000)) 2000 = Some (str "AUTHOR: Bob" ++ nl) /\
  option_map (fun r => (length (REMARKS r), meta_get r (str "AUTHOR")))
    (parse_text (long_header 2000) default_max_header_lines)
  = Some (2000, Some (str "Bob")) /\
  option_map (fun r => (length (REMARKS r), meta_get r (str "AUTHOR")))
    (parse_text (long_header 2001) default_max_header_lines)
  = Some (2001, None).
Proof.
  vm_compute. repeat split; reflexivity.
Qed.

(** ** The end of the header *)

(** C4 as stated fails: the line [B: 3] comes after the coordinate line and
    still reaches the canonical field STOICH, which the pass after the scan
    collects from the whole text. *)
Lemma later_line_reaches_stoich :
  stops (atom_line ++ nl) = true /\
  option_map (fun r => meta_get r (str "STOICH"))
    (parse_text (atom_line ++ nl) default_max_header_lines)
  = Some (Some (str "ATOM1A1")) /\
  option_map (fun r => meta_get r (str "STOICH"))
    (parse_text (atom_line ++ nl ++ str "B: 3" ++ nl) default_max_header_lines)
  = Some (Some (str "ATOM1A1B3")).
Proof.
  vm_compute. repeat split; reflexivity.
Qed.

(** ** Values of the canonical fields *)




Lemma ab_lines (iter_error : option nat) :
  let lines := match iter_error with
               | None => readlines ab_text
               | Some n => firstn n (readlines ab_text)
               end in
  lines = [] \/ lines = [str "A: 2" ++ nl] \/
  lines = [str "A: 2" ++ nl; str "B: 3" ++ nl].
Proof.
  replace (readlines ab_text) with [str "A: 2" ++ nl; str "B: 3" ++ nl]
    by (vm_compute; reflexivity).
  destruct iter_error as [[|[|n]]|]; cbn [firstn]; auto.
  rewrite firstn_nil. auto.
Qed.

(** ** The cache and the commands *)

(** C8.  When the TS path does not exist, [attach_ts] prints that the file
    was not found and changes nothing else: the cache, and so the entry of
    every key, is what it was before the call. *)
Theorem attach_missing_path (h : host) (ts_path obj_identifier : pystr)
    (s : session) :
  os_path_exists h (expanduser h ts_path) = false ->
  cache (attach_ts h ts_path obj_identifier s) = cache s /\
  objects (attach_ts h ts_path obj_identifier s) = objects s /\
  console (attach_ts h ts_path obj_identifier s)
  = console s ++ [not_found_notice (expanduser h ts_path)].
Proof.
  intros H. unfold attach_ts. cbv zeta. rewrite H. simpl. auto.
Qed.

Lemma attach_missing_path_witness :
  cache (attach_ts demo_host (str "/work/missing.txt") (str "m1") demo_session)
  = cache demo_session /\
  objects (attach_ts demo_host (str "/work/missing.txt") (str "m1") demo_session)
  = objects demo_session /\
  console (attach_ts demo_host (str "/work/missing.txt") (str "m1") demo_session)
  = console demo_session
    ++ [not_found_notice (expanduser demo_host (str "/work/missing.txt"))].
Proof.
  apply (attach_missing_path demo_host (str "/work/missing.txt") (str "m1")
           demo_session).
  vm_compute; reflexivity.
Defined.

(** C10 as stated fails in its middle part: the file exists, but no open
    object matches the identifier, and [attach_ts] stores nothing. *)
Lemma attach_existing_file_without_object :
  os_path_exists demo_host (expanduser demo_host (str "/work/m1.txt")) = true /\
  cache (attach_ts demo_host (str "/work/m1.txt") (str "zz") demo_session) = [] /\
  console (attach_ts demo_host (str "/work/m1.txt") (str "zz") demo_session)
  = [[VStr (str "attach_ts: object not found (available objects):");
      VList [str "m1"]]].
Proof.
  vm_compute. repeat split; reflexivity.
Qed.

(** C10, amended.  For a path that exists, [_parse_ts_metadata] returns a
    record with exactly the eight canonical keys as fields, whatever the
    node is and wherever reading breaks off.  [attach_ts] on such a path
    either prints why no object was chosen and stores nothing, or stores
    that record under the chosen object; it never reports that parsing
    returned no metadata. *)
Theorem existing_path_gives_record (h : host) (p : pystr) :
  os_path_exists h p = true ->
  (forall mx, exists r,
      _parse_ts_metadata h p mx = Some r /\
      od_keys (fields r) = od_keys _KEY_ALIASES /\
      meta_truthy (Some r) = true) /\
  (forall ts_path obj_identifier s,
      expanduser h ts_path = p ->
      exists r,
        _parse_ts_metadata h p default_max_header_lines = Some r /\
        match resolve_target (objects s) obj_identifier with
        | inl obj_name =>
            attach_ts h ts_path obj_identifier s
            = _pretty_print_trimmed obj_name (Some r)
                (print (attached_notice p obj_name)
                   (cache_store obj_name (Some r) s)) /\
            od_get (cache (attach_ts h ts_path obj_identifier s)) obj_name
            = Some (Some r)
        | inr message =>
            attach_ts h ts_path obj_identifier s = print message s /\
            message <> parse_failed_notice
        end).
Proof.
  intros Hex. split.
  - intros mx. rewrite (parse_exists _ _ _ Hex). eexists.
    split; [reflexivity|]. split; [|apply meta_truthy_some].
    cbv zeta. rewrite build_fields. unfold od_keys.
    rewrite map_map. apply map_id.
  - intros ts_path obj_identifier s Hp.
    rewrite (parse_exists _ _ _ Hex). eexists. split; [reflexivity|].
    unfold attach_ts. cbv zeta. rewrite Hp, Hex. cbn [negb].
    rewrite (parse_exists _ _ _ Hex).
    destruct (resolve_target (objects s) obj_identifier) as [obj_name|message] eqn:Hres.
    + rewrite meta_truthy_some. cbn [negb]. split; [reflexivity|].
      rewrite pretty_print_console. cbn [cache print cache_store].
      now rewrite od_get_set, str_eqb_refl.
    + split; [reflexivity|].
      unfold resolve_target in Hres.
      destruct (existsb _ _); [discriminate|].
      destruct (filter _ _) as [|a [|b l]]; try discriminate;
        injection Hres as <-; discriminate.
Qed.

Lemma existing_path_gives_record_witness :
  exists r,
    _parse_ts_metadata demo_host (str "/work/m1.txt") default_max_header_lines
    = Some r /\
    od_get (cache (attach_ts demo_host (str "/work/m1.txt") (str "m1") demo_session))
      (str "m1") = Some (Some r).
Proof.
  destruct (existing_path_gives_record demo_host (str "/work/m1.txt")) as [_ H].
  - vm_compute; reflexivity.
  - destruct (H (str "/work/m1.txt") (str "m1") demo_session) as (r & Hr & Hm).
    + vm_compute; reflexivity.
    + exists r. split; [exact Hr|].
      assert (E : resolve_target (objects demo_session) (str "m1")
                  = inl (str "m1")) by (vm_compute; reflexivity).
      rewrite E in Hm. exact (proj2 Hm).
Defined.

(** * Further properties *)

(** ** The header loop, line by line *)

Lemma header_prefix_pass (mx : nat) (lines : list pystr) :
  forall i, Forall (fun r => stops r = false) (header_prefix mx i lines).
Proof.
  induction lines as [|raw more IH]; intros i; simpl; [constructor|].
  destruct (mx <? i); [constructor|].
  destruct (stops raw) eqn:E; constructor; auto.
Qed.

Lemma header_loop_prefix (mx : nat) (lines : list pystr) :
  forall i st,
    header_loop mx i lines st = header_loop mx i (header_prefix mx i lines) st.
Proof.
  induction lines as [|raw more IH]; intros i st; simpl; [reflexivity|].
  destruct (mx <? i) eqn:Hcap; [reflexivity|].
  destruct (stops raw) eqn:Hstop.
  - now rewrite (loop_body_break _ _ _ Hstop).
  - simpl. rewrite Hcap.
    destruct (loop_body_total i raw st Hstop) as [st' Hst]. rewrite Hst.
    apply IH.
Qed.

Ltac body_cases :=
  unfold loop_body; cbv zeta;
  repeat match goal with
         | |- context [match ?x with Some _ => _ | None => _ end] =>
             destruct x eqn:?
         | |- context [if ?b then _ else _] => destruct b eqn:?
         end.

Lemma loop_body_remarks (i : nat) (raw : pystr) (st : pstate) :
  match loop_body i raw st with
  | Break => True
  | Next st' =>
      remarks st' =
      remarks st ++ (if is_remark_line raw then [strip (rstrip_nl raw)] else [])
  end.
Proof.
  unfold is_remark_line. body_cases; simpl; try rewrite app_nil_r;
    try reflexivity; try exact I; try discriminate.
Qed.

Lemma header_loop_remarks (mx : nat) (lines : list pystr) :
  forall i st,
    remarks (header_loop mx i lines st) =
    remarks st ++ map (fun raw => strip (rstrip_nl raw))
                    (filter is_remark_line (header_prefix mx i lines)).
Proof.
  induction lines as [|raw more IH]; intros i st; simpl.
  - now rewrite app_nil_r.
  - destruct (mx <? i); [simpl; now rewrite app_nil_r|].
    destruct (stops raw) eqn:Hstop.
    + rewrite (loop_body_break _ _ _ Hstop). simpl. now rewrite app_nil_r.
    + destruct (loop_body_total i raw st Hstop) as [st' Hst].
      pose proof (loop_body_remarks i raw st) as R. rewrite Hst in *.
      rewrite IH, R. simpl.
      destruct (is_remark_line raw); simpl; now rewrite <- app_assoc.
Qed.

(** X1. The REMARKS of the record are, in file order, the trimmed texts of
    the lines the header loop passes whose upper-case text starts with
    REMARK. *)
Theorem remarks_in_file_order (h : host) (p : pystr) (mx : nat) :
  os_path_exists h p = true ->
  exists r,
    _parse_ts_metadata h p mx = Some r /\
    REMARKS r = map (fun raw => strip (rstrip_nl raw))
                  (filter is_remark_line (header_prefix mx 0 (iter_lines h p))).
Proof.
  intros Hex. rewrite (parse_exists _ _ _ Hex). eexists.
  split; [reflexivity|]. cbv zeta. simpl REMARKS.
  now rewrite header_loop_remarks.
Qed.

Lemma remarks_in_file_order_witness :
  exists r,
    _parse_ts_metadata demo_host (str "/work/scores.txt") 2000 = Some r /\
    REMARKS r = map (fun raw => strip (rstrip_nl raw))
                  (filter is_remark_line
                     (header_prefix 2000 0
                        (iter_lines demo_host (str "/work/scores.txt")))).
Proof.
  apply (remarks_in_file_order demo_host (str "/work/scores.txt") 2000).
  vm_compute; reflexivity.
Defined.

(** ** Records of files with the same header *)

Lemma same_header_same_record (h : host) (p1 p2 : pystr) (mx : nat) :
  os_path_exists h p1 = true ->
  os_path_exists h p2 = true ->
  header_loop mx 0 (iter_lines h p1) init_pstate
  = header_loop mx 0 (iter_lines h p2) init_pstate ->
  exists r1 r2,
    _parse_ts_metadata h p1 mx = Some r1 /\
    _parse_ts_metadata h p2 mx = Some r2 /\
    REMARKS r1 = REMARKS r2 /\
    OTHER r1 = OTHER r2 /\
    forall k, k <> str "STOICH" -> meta_get r1 k = meta_get r2 k.
Proof.
  intros H1 H2 E.
  rewrite (parse_exists _ _ _ H1), (parse_exists _ _ _ H2).
  do 2 eexists. split; [reflexivity|]. split; [reflexivity|].
  cbv zeta. rewrite E.
  split; [reflexivity|]. split; [reflexivity|].
  intros k Hk. rewrite !meta_get_build.
  destruct (canonical k) eqn:Hcan; [|reflexivity].
  unfold get_or_none. rewrite !post_score_get.
  rewrite !(post_stoich_other _ _ _ k Hcan Hk).
  destruct (str_eqb (str "SCORE") k); [|reflexivity].
  now rewrite !(post_stoich_other _ _ _ (str "SCORE")).
Qed.

(** X2. Lines whose index exceeds [max_header_lines] are not read: two
    files that agree on their first [max_header_lines + 1] lines give the
    same remarks, the same [other] and the same fields apart from STOICH. *)
Theorem lines_past_cap_ignored (h : host) (p1 p2 : pystr) (mx : nat)
    (pre post1 post2 : list pystr) :
  os_path_exists h p1 = true ->
  os_path_exists h p2 = true ->
  iter_lines h p1 = pre ++ post1 ->
  iter_lines h p2 = pre ++ post2 ->
  length pre = S mx ->
  exists r1 r2,
    _parse_ts_metadata h p1 mx = Some r1 /\
    _parse_ts_metadata h p2 mx = Some r2 /\
    REMARKS r1 = REMARKS r2 /\
    OTHER r1 = OTHER r2 /\
    forall k, k <> str "STOICH" -> meta_get r1 k = meta_get r2 k.
Proof.
  intros H1 H2 L1 L2 Hlen.
  apply same_header_same_record; try assumption.
  rewrite L1, L2, !header_loop_cap by (simpl; lia). reflexivity.
Qed.

Lemma lines_past_cap_ignored_witness :
  exists r1 r2,
    _parse_ts_metadata demo_host2 (str "/d/a.ts") 0 = Some r1 /\
    _parse_ts_metadata demo_host2 (str "/d/a.txt") 0 = Some r2 /\
    REMARKS r1 = REMARKS r2 /\
    OTHER r1 = OTHER r2 /\
    forall k, k <> str "STOICH" -> meta_get r1 k = meta_get r2 k.
Proof.
  apply (lines_past_cap_ignored demo_host2 (str "/d/a.ts") (str "/d/a.txt") 0
           [str "AUTHOR: Bob" ++ nl] [str "TITLE: x" ++ nl] [str "METHOD: y" ++ nl]);
    vm_compute; reflexivity.
Defined.

(** ** The entries of [other] *)

Lemma od_mem_in {V} (d : odict V) (k : pystr) :
  od_mem d k = true <-> In k (od_keys d).
Proof.
  unfold od_mem, od_keys. induction d as [|[k0 v0] d IH]; simpl.
  - split; [discriminate|contradiction].
  - destruct (str_eqb k0 k) eqn:E.
    + apply str_eqb_eq in E. split; auto.
    + apply str_eqb_neq in E. rewrite IH. split; [auto|].
      intros [H|H]; [contradiction|assumption].
Qed.

Lemma od_get_app {V} (d added : odict V) (k : pystr) (v : V) :
  od_get d k = Some v -> od_get (d ++ added) k = Some v.
Proof.
  induction d as [|[k0 v0] d IH]; simpl; [discriminate|].
  destruct (str_eqb k0 k); auto.
Qed.

Lemma loop_body_other (i : nat) (raw : pystr) (st : pstate) :
  match loop_body i raw st with
  | Break => True
  | Next st' =>
      other st' = other st \/
      exists k v, od_mem (other st) k = false /\ k <> [] /\ v <> [] /\
                  other st' = other st ++ [(k, v)]
  end.
Proof.
  unfold loop_body. cbv zeta.
  destruct (is_empty (strip (rstrip_nl raw))) eqn:Hblank; [now left|].
  destruct (_looks_like_coordinate_line (rstrip_nl raw)); [exact I|].
  destruct (startswith _ _); [now left|].
  destruct (_identify_canonical_key _ _).
  { destruct (_ || _); [now left|]. destruct (truthy _); now left. }
  destruct (re_match re_generic (rstrip_nl raw)) as [m|].
  - destruct (truthy (strip (nth 0 (groups m) []))) eqn:Hk; [|now left].
    destruct (truthy (strip (nth 1 (groups m) []))) eqn:Hv; [|now left].
    destruct (od_mem (other st) (strip (nth 0 (groups m) []))) eqn:Hm; [now left|].
    right. simpl. do 2 eexists. split; [exact Hm|].
    split; [intros E; rewrite E in Hk; discriminate|].
    split; [intros E; rewrite E in Hv; discriminate|].
    now apply od_set_new.
  - destruct (truthy (rstrip_nl raw) && _); [|now left].
    destruct (od_mem (other st) (str "LINE_" ++ str_of_nat i)) eqn:Hm; [now left|].
    right. simpl negb. cbv iota. do 2 eexists. split; [exact Hm|].
    split; [discriminate|].
    split; [intros E; rewrite E in Hblank; discriminate|].
    now apply od_set_new.
Qed.

Lemma other_ok_snoc (o : odict pystr) (k v : pystr) :
  other_ok o -> od_mem o k = false -> k <> [] -> v <> [] ->
  other_ok (o ++ [(k, v)]).
Proof.
  intros [Hnd Hall] Hm Hk Hv. split.
  - unfold od_keys in *. rewrite map_app. simpl.
    apply NoDup_app; [assumption|repeat constructor; intros []| ].
    intros x Hx [<-|[]].
    apply od_mem_in in Hx. congruence.
  - apply Forall_app. split; [assumption|]. repeat constructor; assumption.
Qed.

Lemma header_loop_other (mx : nat) (lines : list pystr) :
  forall i st,
    other_ok (other st) ->
    other_ok (other (header_loop mx i lines st)) /\
    exists added, other (header_loop mx i lines st) = other st ++ added.
Proof.
  induction lines as [|raw more IH]; intros i st Hok; simpl.
  - split; [assumption|]. exists []. now rewrite app_nil_r.
  - destruct (mx <? i);
      [split; [assumption|]; exists []; now rewrite app_nil_r|].
    pose proof (loop_body_other i raw st) as B.
    destruct (loop_body i raw st) as [|st'];
      [split; [assumption|]; exists []; now rewrite app_nil_r|].
    destruct B as [E|(k & v & Hm & Hk & Hv & E)].
    + rewrite <- E. apply IH. now rewrite E.
    + destruct (IH (S i) st') as [Hok' [added Hadd]].
      { rewrite E. now apply other_ok_snoc. }
      split; [assumption|].
      exists ((k, v) :: added). rewrite Hadd, E, <- app_assoc. reflexivity.
Qed.

Lemma other_ok_nil : other_ok [].
Proof. split; constructor. Qed.

(** X3. When the record has an OTHER mapping, it is not empty, its keys
    are distinct, and none of its keys or values is the empty string. *)
Theorem other_entries_well_formed (h : host) (p : pystr) (mx : nat)
    (r : meta) (o : odict pystr) :
  _parse_ts_metadata h p mx = Some r ->
  OTHER r = Some o ->
  o <> [] /\ other_ok o.
Proof.
  unfold _parse_ts_metadata.
  destruct (is_empty p || negb (os_path_exists h p)); [discriminate|].
  intros [= <-]. simpl.
  destruct (header_loop_other mx (iter_lines h p) 0 init_pstate other_ok_nil)
    as [Hok _].
  destruct (other (header_loop mx 0 (iter_lines h p) init_pstate)) as [|e o'];
    simpl; [discriminate|].
  intros [= <-]. split; [discriminate|assumption].
Qed.

Lemma other_entries_well_formed_witness :
  exists r o,
    _parse_ts_metadata demo_host2 (str "/d/b.txt") 2000 = Some r /\
    OTHER r = Some o /\ o <> [] /\ other_ok o.
Proof.
  do 2 eexists. split; [vm_compute; reflexivity|].
  split; [vm_compute; reflexivity|].
  eapply (other_entries_well_formed demo_host2 (str "/d/b.txt") 2000);
    vm_compute; reflexivity.
Defined.

(** Appending lines *)

Lemma header_loop_extend (mx : nat) (pre post : list pystr) :
  forall i st,
    other_ok (other st) ->
    (exists added,
        other (header_loop mx i (pre ++ post) st)
        = other (header_loop mx i pre st) ++ added) /\
    (exists more,
        remarks (header_loop mx i (pre ++ post) st)
        = remarks (header_loop mx i pre st) ++ more).
Proof.
  induction pre as [|raw pre IH]; intros i st Hok; simpl.
  - split.
    + apply header_loop_other, Hok.
    + rewrite header_loop_remarks. eauto.
  - destruct (mx <? i);
      [split; exists []; now rewrite app_nil_r|].
    pose proof (loop_body_other i raw st) as B.
    destruct (loop_body i raw st) as [|st'];
      [split; exists []; now rewrite app_nil_r|].
    apply IH.
    destruct B as [E|(k & v & Hm & Hk & Hv & E)]; rewrite E;
      [assumption|now apply other_ok_snoc].
Qed.

(** X4. Lines added at the end of a file only add to the remarks and to
    [other]: the remarks and the OTHER entries of the shorter file come
    first, unchanged and in the same order, in the record of the longer
    one. *)
Theorem appended_lines_only_append (h : host) (p1 p2 : pystr) (mx : nat)
    (post : list pystr) :
  os_path_exists h p1 = true ->
  os_path_exists h p2 = true ->
  iter_lines h p2 = iter_lines h p1 ++ post ->
  exists r1 r2,
    _parse_ts_metadata h p1 mx = Some r1 /\
    _parse_ts_metadata h p2 mx = Some r2 /\
    (exists more, REMARKS r2 = REMARKS r1 ++ more) /\
    (forall o1, OTHER r1 = Some o1 ->
                exists added, OTHER r2 = Some (o1 ++ added)).
Proof.
  intros H1 H2 L.
  rewrite (parse_exists _ _ _ H1), (parse_exists _ _ _ H2).
  do 2 eexists. split; [reflexivity|]. split; [reflexivity|].
  cbv zeta. simpl REMARKS. simpl OTHER. rewrite L.
  destruct (header_loop_extend mx (iter_lines h p1) post 0 init_pstate other_ok_nil)
    as [[added Ho] [more Hr]].
  split; [eauto|].
  intros o1. rewrite Ho.
  destruct (other (header_loop mx 0 (iter_lines h p1) init_pstate)) as [|e o];
    simpl; [discriminate|].
  intros [= <-]. exists added. reflexivity.
Qed.

Lemma appended_lines_only_append_witness :
  exists r1 r2,
    _parse_ts_metadata demo_host2 (str "/d/b.txt") 2000 = Some r1 /\
    _parse_ts_metadata demo_host2 (str "/d/b2.txt") 2000 = Some r2 /\
    (exists more, REMARKS r2 = REMARKS r1 ++ more) /\
    (forall o1, OTHER r1 = Some o1 ->
                exists added, OTHER r2 = Some (o1 ++ added)).
Proof.
  apply (appended_lines_only_append demo_host2 (str "/d/b.txt")
           (str "/d/b2.txt") 2000 [str "bar - 3" ++ nl; str "REMARK r2" ++ nl]);
    vm_compute; reflexivity.
Defined.

(** ** The fields of the record *)

(** X5. A field of the record that is present holds a non-empty string,
    and only the eight canonical keys have fields. *)
Theorem fields_nonempty_and_canonical (h : host) (p : pystr) (mx : nat)
    (r : meta) (k v : pystr) :
  _parse_ts_metadata h p mx = Some r ->
  meta_get r k = Some v ->
  v <> [] /\ canonical k = true.
Proof.
  unfold _parse_ts_metadata.
  destruct (is_empty p || negb (os_path_exists h p)); [discriminate|].
  intros [= <-]. rewrite meta_get_build.
  destruct (canonical k); [|discriminate].
  unfold get_or_none. destruct (get_opt _ k) as [w|]; [|discriminate].
  destruct (truthy w) eqn:E; [|discriminate].
  intros [= <-]. split; [|reflexivity].
  intros Hw. rewrite Hw in E. discriminate.
Qed.

Lemma fields_nonempty_and_canonical_witness :
  str "Bob" <> [] /\ canonical (str "AUTHOR") = true.
Proof.
  eapply (fields_nonempty_and_canonical demo_host (str "/work/m1.txt") 2000);
    vm_compute; reflexivity.
Defined.

Lemma od_keys_init : od_keys (out init_pstate) = od_keys _KEY_ALIASES.
Proof. reflexivity. Qed.

Lemma loop_body_out_keys (i : nat) (raw : pystr) (st st' : pstate) :
  loop_body i raw st = Next st' ->
  od_keys (out st) = od_keys _KEY_ALIASES ->
  od_keys (out st') = od_keys _KEY_ALIASES.
Proof.
  intros H Hk. apply loop_body_next in H as [_ A].
  destruct A as [| |canon val Hs| |]; try assumption.
  simpl. rewrite od_keys_set_mem; [assumption|].
  apply od_mem_in. rewrite Hk.
  apply stored_canonical in Hs. unfold canonical in Hs.
  apply existsb_exists in Hs as (x & Hx & E).
  apply str_eqb_eq in E. now subst.
Qed.

Lemma header_loop_out_keys (mx : nat) (lines : list pystr) :
  forall i st,
    od_keys (out st) = od_keys _KEY_ALIASES ->
    od_keys (out (header_loop mx i lines st)) = od_keys _KEY_ALIASES.
Proof.
  induction lines as [|raw more IH]; intros i st Hk; simpl; [assumption|].
  destruct (mx <? i); [assumption|].
  destruct (loop_body i raw st) as [|st'] eqn:E; [assumption|].
  apply IH. eapply loop_body_out_keys; eassumption.
Qed.

Lemma post_stoich_keys (h : host) (p : pystr) (o : odict (option pystr)) :
  od_keys o = od_keys _KEY_ALIASES ->
  od_keys (post_stoich h p o) = od_keys _KEY_ALIASES.
Proof.
  intros Hk. unfold post_stoich.
  assert (Hm : od_mem o (str "STOICH") = true).
  { apply od_mem_in. rewrite Hk. simpl. auto. }
  destruct (negb _ && negb _); [|assumption].
  destruct (_find_stoich_tokens_in_text _) as [found|]; [|assumption].
  destruct (truthy found); [|assumption].
  rewrite Hm. now rewrite od_keys_set_mem.
Qed.

Lemma post_score_keys (o : odict (option pystr)) :
  od_keys o = od_keys _KEY_ALIASES ->
  od_keys (post_score o) = od_keys _KEY_ALIASES.
Proof.
  intros Hk. unfold post_score.
  destruct (get_opt o (str "SCORE")) as [sc|]; [|assumption].
  destruct (truthy sc); [|assumption].
  destruct (re_search re_number sc); [|assumption].
  rewrite od_keys_set_mem; [assumption|].
  apply od_mem_in. rewrite Hk. simpl. auto.
Qed.

(** X6. The dictionary the parser works on never gains a key: after the
    header loop and both post-processing passes its keys are the eight
    canonical ones, in their order; in particular no [STOICHIOMETRY] entry
    is ever created. *)
Theorem working_keys_fixed (h : host) (p : pystr) (mx : nat)
    (lines : list pystr) :
  od_keys (post_score (post_stoich h p
             (out (header_loop mx 0 lines init_pstate))))
  = od_keys _KEY_ALIASES /\
  od_mem (post_score (post_stoich h p
            (out (header_loop mx 0 lines init_pstate))))
    (str "STOICHIOMETRY") = false.
Proof.
  assert (K : od_keys (post_score (post_stoich h p
                 (out (header_loop mx 0 lines init_pstate))))
              = od_keys _KEY_ALIASES).
  { apply post_score_keys, post_stoich_keys, header_loop_out_keys, od_keys_init. }
  split; [exact K|].
  destruct (od_mem _ (str "STOICHIOMETRY")) eqn:E; [|reflexivity].
  apply od_mem_in in E. rewrite K in E. simpl in E.
  repeat (destruct E as [E|E]; [discriminate|]). contradiction.
Qed.

(** X7. When no line of the file stores a stoichiometry, the STOICH field
    is what [_find_stoich_tokens_in_text] finds in the whole text of the
    file, if that is not empty. *)
Theorem stoich_from_whole_text (h : host) (p : pystr) (mx : nat) :
  os_path_exists h p = true ->
  Forall (fun raw => stores_to (str "STOICH") raw = false) (iter_lines h p) ->
  exists r,
    _parse_ts_metadata h p mx = Some r /\
    meta_get r (str "STOICH") =
    match _find_stoich_tokens_in_text (_collect_all_text h p) with
    | Some found => nonempty found
    | None => None
    end.
Proof.
  intros Hex Hall. rewrite (parse_exists _ _ _ Hex). eexists.
  split; [reflexivity|]. cbv zeta.
  set (st := header_loop mx 0 (iter_lines h p) init_pstate).
  assert (Hget : od_get (out st) (str "STOICH") = Some None).
  { unfold st. now rewrite (header_loop_keeps _ _ _ Hall). }
  assert (Hmem : od_mem (out st) (str "STOICH") = true).
  { unfold od_mem. now rewrite Hget. }
  assert (Hopt : get_opt (out st) (str "STOICH") = None).
  { unfold get_opt. now rewrite Hget. }
  assert (Hnone : forall k, od_get (out st) k = None ->
                            get_opt (out st) k = None).
  { intros k Hk. unfold get_opt. now rewrite Hk. }
  assert (Hio : get_opt (out st) (str "STOICHIOMETRY") = None).
  { apply Hnone. destruct (od_get (out st) (str "STOICHIOMETRY")) eqn:E; [|reflexivity].
    assert (M : od_mem (out st) (str "STOICHIOMETRY") = true)
      by (unfold od_mem; now rewrite E).
    apply od_mem_in in M. unfold st in M.
    rewrite header_loop_out_keys in M by apply od_keys_init.
    simpl in M. repeat (destruct M as [M|M]; [discriminate|]). contradiction. }
  rewrite meta_get_build. change (canonical (str "STOICH")) with true.
  unfold get_or_none. rewrite post_score_get.
  change (str_eqb (str "SCORE") (str "STOICH")) with false. cbv iota.
  unfold post_stoich. rewrite Hopt, Hio. cbn [opt_truthy negb andb].
  destruct (_find_stoich_tokens_in_text (_collect_all_text h p)) as [found|].
  - unfold nonempty. destruct (truthy found) eqn:Ht.
    + rewrite Hmem, get_opt_set, str_eqb_refl. now rewrite Ht.
    + now rewrite Hopt.
  - now rewrite Hopt.
Qed.

Lemma stoich_from_whole_text_witness :
  exists r,
    _parse_ts_metadata demo_host (str "/work/atom2.txt") 2000 = Some r /\
    meta_get r (str "STOICH") =
    match _find_stoich_tokens_in_text
            (_collect_all_text demo_host (str "/work/atom2.txt")) with
    | Some found => nonempty found
    | None => None
    end.
Proof.
  apply (stoich_from_whole_text demo_host (str "/work/atom2.txt") 2000).
  - vm_compute; reflexivity.
  - repeat (constructor; [vm_compute; reflexivity|]). constructor.
Defined.

(** ** Paths that do not exist, and files that yield nothing *)

(** X8. [_parse_ts_metadata] returns no record exactly when the path does
    not exist (the empty path included). *)
Theorem parse_absent_iff_missing (h : host) (p : pystr) (mx : nat) :
  _parse_ts_metadata h p mx = None <-> os_path_exists h p = false.
Proof.
  split.
  - destruct (os_path_exists h p) eqn:E; [|reflexivity].
    rewrite (parse_exists _ _ _ E). discriminate.
  - intros E. unfold _parse_ts_metadata. rewrite E.
    now rewrite orb_true_r.
Qed.

(** X9. A path that exists but delivers no line and no text (a directory,
    an empty file, a file that cannot be read) gives the record with no
    field, no remark and no OTHER, and rendering it prints only the notice
    that no recognized fields were found. *)
Theorem nothing_read_gives_empty_record (h : host) (p key : pystr) (mx : nat)
    (s : session) :
  os_path_exists h p = true ->
  iter_lines h p = [] ->
  _collect_all_text h p = [] ->
  _parse_ts_metadata h p mx = Some empty_record /\
  console (_pretty_print_trimmed key (_parse_ts_metadata h p mx) s)
  = console s ++ [header_line key; no_fields_notice].
Proof.
  intros Hex Hl Ht.
  assert (E : _parse_ts_metadata h p mx = Some empty_record).
  { rewrite (parse_exists _ _ _ Hex). cbv zeta.
    rewrite Hl. unfold post_stoich. rewrite Ht. reflexivity. }
  split; [exact E|]. rewrite E, pretty_print_console. reflexivity.
Qed.

Lemma nothing_read_gives_empty_record_witness :
  _parse_ts_metadata demo_host (str "/work") 2000 = Some empty_record /\
  console (_pretty_print_trimmed (str "k")
             (_parse_ts_metadata demo_host (str "/work") 2000) demo_session)
  = console demo_session ++ [header_line (str "k"); no_fields_notice].
Proof.
  apply (nothing_read_gives_empty_record demo_host (str "/work") (str "k") 2000
           demo_session); vm_compute; reflexivity.
Defined.

(** ** What the matcher consumes *)

Lemma rep_within {R} (p : ascii -> bool) (g : bool) (s : pystr) :
  forall lo hi (k : pystr -> option R) res,
    rep p g lo hi s k = Some res ->
    exists pre s',
      s = pre ++ s' /\ forallb p pre = true /\ lo <= length pre /\
      k s' = Some res.
Proof.
  induction s as [|c t IH]; intros lo hi k res H; simpl in H.
  - destruct (lo =? 0) eqn:E; [|discriminate].
    apply Nat.eqb_eq in E. exists [], []. simpl. repeat split; [lia|assumption].
  - assert (Hstop : (if lo =? 0 then k (c :: t) else None) = Some res ->
              exists pre s', c :: t = pre ++ s' /\ forallb p pre = true /\
                             lo <= length pre /\ k s' = Some res).
    { destruct (lo =? 0) eqn:E; [|discriminate].
      apply Nat.eqb_eq in E. intros Hk. exists [], (c :: t).
      simpl. repeat split; [lia|assumption]. }
    destruct (p c && more_allowed hi) eqn:Hp; [|auto].
    apply andb_true_iff in Hp as [Hpc _].
    assert (Hmore : rep p g (pred lo) (option_map pred hi) t k = Some res ->
              exists pre s', c :: t = pre ++ s' /\ forallb p pre = true /\
                             lo <= length pre /\ k s' = Some res).
    { intros Hr. destruct (IH _ _ _ _ Hr) as (pre & s' & -> & Hall & Hlen & Hk).
      exists (c :: pre), s'. simpl. rewrite Hpc, Hall.
      repeat split; [lia|assumption]. }
    destruct g.
    + destruct (rep p true (pred lo) (option_map pred hi) t k) eqn:E; auto.
    + destruct (if lo =? 0 then k (c :: t) else None) eqn:E; auto.
Qed.

Lemma forallb_impl (p q : ascii -> bool) (l : pystr) :
  (forall c, p c = true -> q c = true) ->
  forallb p l = true -> forallb q l = true.
Proof.
  intros Hpq. induction l as [|c l IH]; simpl; [reflexivity|].
  intros H. apply andb_true_iff in H as [Hc Hl].
  now rewrite (Hpq _ Hc), IH.
Qed.

Lemma run_within {R} (q : ascii -> bool) (r : regex) :
  Within q r ->
  forall s caps (k : list span -> pystr -> option R) res,
    run r s caps k = Some res ->
    exists caps' pre s',
      s = pre ++ s' /\ forallb q pre = true /\ k caps' s' = Some res.
Proof.
  induction 1 as [p Hp|p lo hi g Hp|a b _ IHa _ IHb|a b _ IHa _ IHb|a _ IHa|];
    intros s caps k res H; simpl in H.
  - destruct s as [|c t]; [discriminate|].
    destruct (p c) eqn:E; [|discriminate].
    exists caps, [c], t. simpl. rewrite (Hp _ E). auto.
  - apply rep_within in H as (pre & s' & -> & Hall & _ & Hk).
    exists caps, pre, s'. repeat split; [|assumption].
    eapply forallb_impl; eassumption.
  - apply IHa in H as (c1 & pre1 & s1 & -> & Q1 & H1).
    apply IHb in H1 as (c2 & pre2 & s2 & -> & Q2 & H2).
    exists c2, (pre1 ++ pre2), s2. rewrite <- app_assoc, forallb_app, Q1, Q2. auto.
  - destruct (run a s caps k) eqn:E.
    + injection H as <-. eapply IHa; eassumption.
    + eapply IHb; eassumption.
  - apply IHa in H as (c1 & pre1 & s1 & -> & Q1 & H1). eauto 6.
  - destruct s as [|c [|c' t]]; try discriminate.
    + exists caps, [], []. auto.
    + destruct (Ascii.eqb c "010"%char); [|discriminate].
      exists caps, [], [c]. auto.
Qed.

Lemma cut_app (pre s' : pystr) : cut (pre ++ s', s') = pre.
Proof.
  unfold cut. simpl. rewrite length_app.
  replace (length pre + length s' - length s') with (length pre) by lia.
  rewrite firstn_app, firstn_all, Nat.sub_diag. simpl. apply app_nil_r.
Qed.

Lemma re_match_within (q : ascii -> bool) (r : regex) (s : pystr) (m : rmatch) :
  Within q r -> re_match r s = Some m ->
  s = whole m ++ rest m /\ forallb q (whole m) = true.
Proof.
  intros W H. unfold re_match in H.
  apply (run_within q r W) in H as (caps & pre & s' & -> & Q & Hk).
  injection Hk as <-. simpl. rewrite cut_app. auto.
Qed.

Lemma re_search_within (q : ascii -> bool) (r : regex) (s : pystr) (m : rmatch) :
  Within q r -> re_search r s = Some m ->
  (exists skipped, s = skipped ++ whole m ++ rest m) /\
  forallb q (whole m) = true.
Proof.
  intros W. induction s as [|c t IH]; simpl; intros H.
  - destruct (re_match r []) eqn:E; [|discriminate].
    injection H as <-. apply (re_match_within q) in E as [E Q]; [|assumption].
    split; [exists []; exact E|exact Q].
  - destruct (re_match r (c :: t)) eqn:E.
    + injection H as <-. apply (re_match_within q) in E as [E Q]; [|assumption].
      split; [exists []; exact E|exact Q].
    + destruct (IH H) as [[sk Hs] Q]. split; [|exact Q].
      exists (c :: sk). simpl. now rewrite Hs.
Qed.

Lemma run_demands {R} (q : ascii -> bool) (r : regex) :
  Demands q r ->
  forall s caps (k : list span -> pystr -> option R) res,
    run r s caps k = Some res -> existsb q s = true.
Proof.
  induction 1 as [p Hp|p lo hi g Hp Hlo|a b _ IHa|a b _ IHb|a b _ IHa _ IHb|a _ IHa];
    intros s caps k res H; simpl in H.
  - destruct s as [|c t]; [discriminate|].
    destruct (p c) eqn:E; [|discriminate].
    simpl. now rewrite (Hp _ E).
  - apply rep_within in H as (pre & s' & -> & Hall & Hlen & _).
    destruct pre as [|c pre]; [simpl in Hlen; lia|].
    simpl in Hall. apply andb_true_iff in Hall as [Hc _].
    simpl. now rewrite (Hp _ Hc).
  - eapply IHa; eassumption.
  - assert (W : Within (fun _ => true) a).
    { clear. induction a; constructor; auto. }
    apply (run_within _ a W) in H as (c1 & pre & s1 & -> & _ & H1).
    rewrite existsb_app. apply IHb in H1. rewrite H1. apply orb_true_r.
  - destruct (run a s caps k) eqn:E.
    + eapply IHa; eassumption.
    + eapply IHb; eassumption.
  - eapply IHa; eassumption.
Qed.

Lemma re_search_demands (q : ascii -> bool) (r : regex) (s : pystr) :
  Demands q r -> existsb q s = false -> re_search r s = None.
Proof.
  intros D. induction s as [|c t IH]; simpl; intros Hq.
  - destruct (re_match r []) eqn:E; [|reflexivity].
    unfold re_match in E. apply (run_demands q r D) in E. discriminate.
  - destruct (re_match r (c :: t)) eqn:E.
    + unfold re_match in E. apply (run_demands q r D) in E.
      simpl in E. congruence.
    + apply IH. apply orb_false_iff in Hq. tauto.
Qed.

(** ** The score as a number *)

Lemma number_char_sign (c : ascii) :
  char_in (str "-+") c = true -> number_char c = true.
Proof.
  unfold number_char, char_in. simpl.
  destruct (Ascii.eqb c "-"), (Ascii.eqb c "+"); simpl;
    try discriminate; intros _; apply orb_true_r.
Qed.

Lemma number_char_digit (c : ascii) : isdigit c = true -> number_char c = true.
Proof. unfold number_char. now intros ->. Qed.

Lemma number_char_dot (c : ascii) :
  Ascii.eqb "."%char c = true -> number_char c = true.
Proof.
  intros E. apply Ascii.eqb_eq in E. subst c. reflexivity.
Qed.

Lemma within_re_number : Within number_char re_number.
Proof.
  unfold re_number, opt, star, plus, lit. simpl seq.
  repeat constructor;
    auto using number_char_sign, number_char_digit, number_char_dot.
Qed.

Lemma demands_re_number : Demands isdigit re_number.
Proof.
  unfold re_number, opt, star, plus, lit. simpl seq.
  apply demands_alt.
  - do 3 apply demands_seq_r. constructor; auto.
  - constructor; auto.
Qed.

Lemma rep_zero_total {R} (p : ascii -> bool) (g : bool) (hi : option nat)
    (s : pystr) (k : pystr -> option R) :
  (forall s', k s' <> None) -> rep p g 0 hi s k <> None.
Proof.
  intros Hk. destruct s as [|c t]; simpl; [apply Hk|].
  destruct (p c && more_allowed hi); [|apply Hk].
  destruct g.
  - destruct (rep p true 0 (option_map pred hi) t k); [discriminate|apply Hk].
  - destruct (k (c :: t)) eqn:E; [discriminate|]. now apply Hk in E.
Qed.

Lemma re_match_number_at_digit (c : ascii) (t : pystr) :
  isdigit c = true -> re_match re_number (c :: t) <> None.
Proof.
  intros Hc. unfold re_match, re_number. simpl run.
  match goal with
  | |- match ?a with Some x => Some x | None => ?b end <> None =>
      destruct a; [discriminate|]
  end.
  unfold plus. simpl. rewrite Hc. simpl.
  match goal with
  | |- match ?a with Some x => Some x | None => ?b end <> None =>
      destruct a eqn:E; [discriminate|]
  end.
  exfalso. revert E. apply rep_zero_total. discriminate.
Qed.

Lemma re_search_number_total (v : pystr) :
  existsb isdigit v = true -> re_search re_number v <> None.
Proof.
  induction v as [|c t IH]; simpl; [discriminate|].
  intros H. destruct (re_match re_number (c :: t)) eqn:E; [discriminate|].
  destruct (isdigit c) eqn:Hc.
  - exfalso. revert E. now apply re_match_number_at_digit.
  - apply IH. exact H.
Qed.

(** X10. The SCORE field is a non-empty piece of the value the last score
    line stored.  When that value holds a digit the field is written with
    digits, signs and dots only; when it holds none the value is kept as
    it is. *)
Theorem score_field_is_number (h : host) (p : pystr) (mx : nat)
    (pre : list pystr) (raw : pystr) (post : list pystr) (v : pystr) :
  os_path_exists h p = true ->
  iter_lines h p = pre ++ raw :: post ->
  length pre <= mx ->
  Forall (fun r => stops r = false) pre ->
  stored raw = Some (str "SCORE", v) ->
  Forall (fun r => stores_to (str "SCORE") r = false) post ->
  exists r w,
    _parse_ts_metadata h p mx = Some r /\
    meta_get r (str "SCORE") = Some w /\
    w <> [] /\ substring w v /\
    if existsb isdigit v then forallb number_char w = true else w = v.
Proof.
  intros Hex Hl Hlen Hpre Hst Hpost.
  destruct (parse_last_store h p mx pre raw post _ _ Hex Hl Hlen Hpre Hst Hpost)
    as (r & Hr & Hget).
  rewrite str_eqb_refl in Hget.
  exists r, (numeric_part v). split; [exact Hr|]. split; [exact Hget|].
  split; [apply numeric_part_nonempty; eapply stored_not_stop; eassumption|].
  unfold numeric_part.
  destruct (re_search re_number v) as [m|] eqn:E.
  - destruct (re_search_within number_char _ _ _ within_re_number E)
      as [[sk Hs] Q].
    split; [exists sk, (rest m); exact Hs|].
    destruct (existsb isdigit v) eqn:D; [exact Q|].
    rewrite (re_search_demands isdigit re_number v demands_re_number D) in E.
    discriminate.
  - split; [exists [], []; now rewrite app_nil_r|].
    destruct (existsb isdigit v) eqn:D; [|reflexivity].
    exfalso. revert E. now apply re_search_number_total.
Qed.

Lemma score_field_is_number_witness :
  exists r w,
    _parse_ts_metadata demo_host (str "/work/scores.txt") 2000 = Some r /\
    meta_get r (str "SCORE") = Some w /\
    w <> [] /\ substring w (str "0.8231 (model 1)") /\
    forallb number_char w = true.
Proof.
  apply (score_field_is_number demo_host (str "/work/scores.txt") 2000
           [str "REMARK first" ++ nl] (score_line ++ nl) [str "AUTHOR: Bob" ++ nl]
           (str "0.8231 (model 1)")).
  - vm_compute; reflexivity.
  - vm_compute; reflexivity.
  - simpl; lia.
  - repeat (constructor; [vm_compute; reflexivity|]). constructor.
  - vm_compute; reflexivity.
  - repeat (constructor; [vm_compute; reflexivity|]). constructor.
Defined.

(** ** Where the header ends *)

Lemma demands_decimal : Demands isdigit decimal.
Proof.
  unfold decimal, opt, plus, lit. simpl seq.
  apply demands_seq_r, demands_seq_l. constructor; auto.
Qed.

Lemma demands_three_decimals : Demands isdigit re_three_decimals.
Proof.
  unfold re_three_decimals. simpl seq.
  apply demands_seq_l, demands_decimal.
Qed.

Lemma demands_columnar : Demands isdigit re_columnar.
Proof.
  unfold re_columnar, star, plus. simpl seq.
  apply demands_seq_r, demands_seq_l. constructor; auto.
Qed.

(** X11. A line without any digit ends the header scan only when its
    trimmed text starts, in any case, with ATOM, HETATM, TER or ENDMDL. *)
Theorem digitless_line_stops_only_on_tag (raw : pystr) :
  existsb isdigit (rstrip_nl raw) = false ->
  existsb (fun t => startswith t (upper (strip (rstrip_nl raw))))
    coordinate_tags = false ->
  stops raw = false.
Proof.
  intros Hd Ht. unfold stops, _looks_like_coordinate_line.
  destruct (is_empty (rstrip_nl raw) || is_empty (strip (rstrip_nl raw)));
    [reflexivity|].
  rewrite (re_search_demands isdigit _ _ demands_three_decimals Hd).
  cbn [matched]. fold coordinate_tags. rewrite Ht.
  destruct (re_match re_columnar (rstrip_nl raw)) eqn:E; [|reflexivity].
  unfold re_match in E.
  apply (run_demands isdigit _ demands_columnar) in E. congruence.
Qed.

Lemma digitless_line_stops_only_on_tag_witness :
  stops (str "Author - Bob Smith" ++ nl) = false.
Proof.
  apply (digitless_line_stops_only_on_tag (str "Author - Bob Smith" ++ nl));
    vm_compute; reflexivity.
Defined.

(** ** Substrings *)

Lemma startswith_iff (pre s : pystr) :
  startswith pre s = true <-> exists post, s = pre ++ post.
Proof.
  revert s. induction pre as [|x pre IH]; intros s; simpl.
  - split; [eauto|reflexivity].
  - destruct s as [|y s].
    + split; [discriminate|intros [post H]; discriminate].
    + rewrite andb_true_iff, IH. split.
      * intros [E [post ->]]. apply Ascii.eqb_eq in E. subst. eauto.
      * intros [post [= -> ->]]. split; [apply Ascii.eqb_refl|eauto].
Qed.

Lemma contains_iff (sub s : pystr) :
  contains sub s = true <-> substring sub s.
Proof.
  unfold substring. induction s as [|c s IH]; simpl.
  - rewrite orb_false_r, startswith_iff. split.
    + intros [post H]. exists [], post. exact H.
    + intros (pre & post & H). destruct pre; [eauto|discriminate].
  - rewrite orb_true_iff, startswith_iff, IH. split.
    + intros [[post H]|(pre & post & H)].
      * exists [], post. exact H.
      * exists (c :: pre), post. simpl. now rewrite H.
    + intros (pre & post & H). destruct pre as [|c' pre].
      * left. eauto.
      * right. injection H as _ H. eauto.
Qed.

Lemma contains_refl (s : pystr) : contains s s = true.
Proof.
  apply contains_iff. exists [], []. now rewrite app_nil_r.
Qed.

Lemma contains_trans (a b c : pystr) :
  contains a b = true -> contains b c = true -> contains a c = true.
Proof.
  rewrite !contains_iff. intros (p1 & q1 & ->) (p2 & q2 & ->).
  exists (p2 ++ p1), (q1 ++ q2). now rewrite <- !app_assoc.
Qed.

Lemma contains_upper (a b : pystr) :
  contains a b = true -> contains (upper a) (upper b) = true.
Proof.
  rewrite !contains_iff. intros (p1 & q1 & ->).
  exists (upper p1), (upper q1). unfold upper. now rewrite !map_app.
Qed.

(** ** Auto-discovery *)

Lemma object_loop_idle (candidates objs : list pystr) (key : pystr) :
  (forall path, In path candidates ->
                contains (upper key) (upper (Path.basename path)) = false) ->
  object_loop candidates objs None key = (None, key).
Proof.
  intros Hno. induction objs as [|n objs IH]; simpl; [reflexivity|].
  destruct (str_eqb key n || contains key n) eqn:Hn; [|exact IH].
  assert (Hkn : contains key n = true).
  { apply orb_true_iff in Hn as [E|E]; [|exact E].
    apply str_eqb_eq in E. subst. apply contains_refl. }
  destruct (find _ candidates) as [path|] eqn:Hf; [|exact IH].
  apply find_some in Hf as [Hin Hc].
  apply contains_upper in Hkn.
  specialize (Hno _ Hin).
  rewrite (contains_trans _ _ _ Hkn Hc) in Hno. discriminate.
Qed.

Lemma filter_nil_all {A} (f : A -> bool) (l : list A) :
  filter f l = [] -> forall x, In x l -> f x = false.
Proof.
  intros H x Hx. destruct (f x) eqn:E; [|reflexivity].
  assert (Hin : In x (filter f l)) by (apply filter_In; auto).
  rewrite H in Hin. contradiction.
Qed.

Lemma filter_ext_in_bool {A} (f g : A -> bool) (l : list A) :
  (forall x, In x l -> f x = g x) -> filter f l = filter g l.
Proof.
  induction l as [|a l IH]; simpl; intros H; [reflexivity|].
  rewrite (H a) by auto. rewrite IH by auto. reflexivity.
Qed.

Lemma discover_spec (h : host) (s : session) (key : pystr) :
  discover h s key = (chosen_by_name h key, key).
Proof.
  unfold discover, chosen_by_name. cbv zeta.
  set (cands := _gather_candidates h (search_dirs h)).
  destruct (filter (fun path =>
              str_eqb (upper (fst (Path.splitext (Path.basename path))))
                      (upper key)) cands) as [|b bs] eqn:Hb; [|reflexivity].
  pose proof (filter_nil_all _ _ Hb) as Hnb. cbv beta in Hnb.
  assert (Hf : filter
                 (fun path =>
                    negb (str_eqb (upper (fst (Path.splitext (Path.basename path))))
                                  (upper key))
                    && contains (upper key) (upper (Path.basename path))) cands
               = filter
                   (fun path => contains (upper key) (upper (Path.basename path)))
                   cands).
  { apply filter_ext_in_bool. intros x Hx. now rewrite (Hnb x Hx). }
  rewrite Hf. clear Hf Hb.
  destruct (filter (fun path => contains (upper key) (upper (Path.basename path)))
              cands) as [|c cs] eqn:Hc; [|reflexivity].
  apply object_loop_idle. exact (filter_nil_all _ _ Hc).
Qed.

(** X12. Auto-discovery never changes the key and does not depend on the
    open objects: it picks the first candidate whose base name equals the
    key, else the first whose name contains the key, and the later search
    by object name can never pick anything. *)
Theorem discover_keeps_key (h : host) (s : session) (key : pystr) :
  discover h s key = (chosen_by_name h key, key).
Proof.
  exact (discover_spec h s key).
Qed.

(** ** Showing and the cache *)

Ltac pair_inv :=
  let E := fresh "E" in
  let E1 := fresh "E" in
  let E2 := fresh "E" in
  intros E; apply pair_equal_spec in E; destruct E as [E1 E2];
  try subst.

Lemma pretty_print_cache (key : pystr) (m : option meta) (s : session) :
  cache (_pretty_print_trimmed key m s) = cache s /\
  objects (_pretty_print_trimmed key m s) = objects s.
Proof. rewrite pretty_print_console. auto. Qed.

Lemma meta_truthy_inv (m : option meta) :
  meta_truthy m = true -> exists r, m = Some r.
Proof. destruct m; [eauto|discriminate]. Qed.

Lemma cache_get_store (key : pystr) (r : meta) (s : session) :
  cache_get (cache_store key (Some r) s) key = Some r.
Proof.
  unfold cache_get, cache_store. simpl. now rewrite od_get_set, str_eqb_refl.
Qed.

Lemma stored_and_shown (key text : pystr) (r : meta) (s : session) :
  let s' := _pretty_print_trimmed key (Some r)
              (print [VStr text] (cache_store key (Some r) s)) in
  objects s' = objects s /\
  cache_get s' key = Some r /\
  forall k, k <> key -> od_get (cache s') k = od_get (cache s) k.
Proof.
  cbv zeta. rewrite pretty_print_console. unfold cache_get. simpl.
  rewrite od_get_set, str_eqb_refl. repeat split.
  intros k Hk. rewrite od_get_set.
  destruct (str_eqb key k) eqn:E; [|reflexivity].
  apply str_eqb_eq in E. congruence.
Qed.

Lemma show_for_key_cases (h : host) (key : pystr) (ts : option pystr)
    (s s' : session) (ok : bool) :
  _show_for_key h key ts s = (ok, s') ->
  objects s' = objects s /\
  if ok
  then (exists m, cache_get s' key = Some m) /\
       forall k, k <> key -> od_get (cache s') k = od_get (cache s) k
  else cache s' = cache s.
Proof.
  unfold _show_for_key.
  destruct (cache_get s key) as [m|] eqn:Hc.
  { pair_inv. destruct (pretty_print_cache key (Some m) s) as [C O].
    split; [exact O|]. split.
    - exists m. unfold cache_get. rewrite C. exact Hc.
    - intros k _. rewrite C. reflexivity. }
  assert (Hexplicit : forall t,
    (if os_path_exists h (expanduser h t) && os_path_isfile h (expanduser h t)
     then
       if meta_truthy (_parse_ts_metadata h (expanduser h t) default_max_header_lines)
       then
         (true,
          _pretty_print_trimmed key
            (_parse_ts_metadata h (expanduser h t) default_max_header_lines)
            (print [VStr (str "show_ts_info: parsed and cached TS from: "
                          ++ expanduser h t ++ str " -> key: " ++ key)]
               (cache_store key
                  (_parse_ts_metadata h (expanduser h t) default_max_header_lines) s)))
       else
         (false, print [VStr (str "show_ts_info: parsing failed for:");
                        VStr (expanduser h t)] s)
     else
       (false, print [VStr (str "show_ts_info: provided TS path not found:");
                      VStr t] s)) = (ok, s') ->
    objects s' = objects s /\
    if ok
    then (exists m, cache_get s' key = Some m) /\
         forall k, k <> key -> od_get (cache s') k = od_get (cache s) k
    else cache s' = cache s).
  { intros t. destruct (_ && _); [|pair_inv; auto].
    destruct (meta_truthy _) eqn:Hm; [|pair_inv; auto].
    apply meta_truthy_inv in Hm as [r Hr]. rewrite Hr.
    pair_inv.
    destruct (stored_and_shown key
                (str "show_ts_info: parsed and cached TS from: "
                 ++ expanduser h t ++ str " -> key: " ++ key) r s)
      as (O & G & K).
    split; [exact O|]. split; [eauto|exact K]. }
  assert (Hauto :
    match discover h s key with
    | (Some chosen, key0) =>
        if truthy chosen
        then
          if meta_truthy (_parse_ts_metadata h chosen default_max_header_lines)
          then
            (true,
             _pretty_print_trimmed key0
               (_parse_ts_metadata h chosen default_max_header_lines)
               (print [VStr (str "show_ts_info: found TS '" ++ Path.basename chosen
                             ++ str "' -> parsed & cached under key: " ++ key0)]
                  (cache_store key0
                     (_parse_ts_metadata h chosen default_max_header_lines) s)))
          else
            (false, print [VStr (str "show_ts_info: found candidate TS but parsing failed:");
                           VStr chosen] s)
        else (false, s)
    | (None, _) => (false, s)
    end = (ok, s') ->
    objects s' = objects s /\
    if ok
    then (exists m, cache_get s' key = Some m) /\
         forall k, k <> key -> od_get (cache s') k = od_get (cache s) k
    else cache s' = cache s).
  { rewrite discover_spec.
    destruct (chosen_by_name h key) as [chosen|]; [|pair_inv; auto].
    destruct (truthy chosen); [|pair_inv; auto].
    destruct (meta_truthy _) eqn:Hm; [|pair_inv; auto].
    apply meta_truthy_inv in Hm as [r Hr]. rewrite Hr.
    pair_inv.
    destruct (stored_and_shown key
                (str "show_ts_info: found TS '" ++ Path.basename chosen
                 ++ str "' -> parsed & cached under key: " ++ key) r s)
      as (O & G & K).
    split; [exact O|]. split; [eauto|exact K]. }
  destruct ts as [[|c t]|]; [exact Hauto|apply Hexplicit|exact Hauto].
Qed.

(** X13. [_show_for_key] never touches the open objects.  When it fails
    the cache is what it was; when it succeeds the cache holds a record
    under the very key it was called with, and no other entry changed. *)
Theorem show_for_key_outcome (h : host) (key : pystr) (ts : option pystr)
    (s s' : session) (ok : bool) :
  _show_for_key h key ts s = (ok, s') ->
  objects s' = objects s /\
  if ok
  then (exists m, cache_get s' key = Some m) /\
       forall k, k <> key -> od_get (cache s') k = od_get (cache s) k
  else cache s' = cache s.
Proof.
  exact (show_for_key_cases h key ts s s' ok).
Qed.

Lemma show_for_key_outcome_witness :
  objects (snd (_show_for_key demo_host (str "m1") None demo_session))
  = objects demo_session /\
  (exists m,
      cache_get (snd (_show_for_key demo_host (str "m1") None demo_session))
        (str "m1") = Some m) /\
  forall k, k <> str "m1" ->
    od_get (cache (snd (_show_for_key demo_host (str "m1") None demo_session))) k
    = od_get (cache demo_session) k.
Proof.
  apply (show_for_key_outcome demo_host (str "m1") None demo_session
           (snd (_show_for_key demo_host (str "m1") None demo_session)) true).
  vm_compute; reflexivity.
Defined.

Lemma show_cached (h : host) (key : pystr) (ts : option pystr) (m : meta)
    (s : session) :
  key <> [] -> cache_get s key = Some m ->
  show_ts_info h (Some key) ts s = _pretty_print_trimmed key (Some m) s.
Proof.
  intros Hk Hc. unfold show_ts_info. destruct key as [|c key]; [contradiction|].
  unfold _show_for_key. now rewrite Hc.
Qed.

(** X14. After a successful [_show_for_key], every later [show_ts_info]
    for the same key prints the cached record and nothing else, whatever
    the file system has become and whatever TS path is given. *)
Theorem show_again_is_served_from_cache (h : host) (key : pystr)
    (ts : option pystr) (s s' : session) :
  key <> [] ->
  _show_for_key h key ts s = (true, s') ->
  exists m,
    cache_get s' key = Some m /\
    forall h' ts',
      show_ts_info h' (Some key) ts' s' = _pretty_print_trimmed key (Some m) s'.
Proof.
  intros Hk H. apply show_for_key_cases in H as [_ [[m Hm] _]].
  exists m. split; [exact Hm|]. intros h' ts'. now apply show_cached.
Qed.

Lemma show_again_is_served_from_cache_witness :
  exists m,
    cache_get (snd (_show_for_key demo_host (str "m1") None demo_session))
      (str "m1") = Some m /\
    forall h' ts',
      show_ts_info h' (Some (str "m1")) ts'
        (snd (_show_for_key demo_host (str "m1") None demo_session))
      = _pretty_print_trimmed (str "m1") (Some m)
          (snd (_show_for_key demo_host (str "m1") None demo_session)).
Proof.
  apply (show_again_is_served_from_cache demo_host (str "m1") None demo_session).
  - discriminate.
  - vm_compute; reflexivity.
Defined.

(** ** Attaching *)

Lemma resolve_target_sound (objs : list pystr) (obj_identifier name : pystr) :
  resolve_target objs obj_identifier = inl name ->
  In name objs /\ contains obj_identifier name = true.
Proof.
  unfold resolve_target.
  destruct (existsb (str_eqb obj_identifier) objs) eqn:E.
  - intros [= <-]. apply existsb_exists in E as (x & Hx & Hxe).
    apply str_eqb_eq in Hxe. subst x. split; [exact Hx|apply contains_refl].
  - destruct (filter (contains obj_identifier) objs) as [|n [|n' l]] eqn:F;
      try discriminate.
    intros [= <-].
    assert (Hin : In n (filter (contains obj_identifier) objs))
      by (rewrite F; simpl; auto).
    apply filter_In in Hin. exact Hin.
Qed.

Lemma attach_ts_cases (h : host) (ts_path obj_identifier : pystr) (s : session) :
  (cache (attach_ts h ts_path obj_identifier s) = cache s) \/
  (exists name r,
      resolve_target (objects s) obj_identifier = inl name /\
      _parse_ts_metadata h (expanduser h ts_path) default_max_header_lines = Some r /\
      attach_ts h ts_path obj_identifier s
      = _pretty_print_trimmed name (Some r)
          (print (attached_notice (expanduser h ts_path) name)
             (cache_store name (Some r) s))).
Proof.
  unfold attach_ts. cbv zeta.
  destruct (os_path_exists h (expanduser h ts_path)); [|now left].
  cbn [negb].
  destruct (resolve_target (objects s) obj_identifier) as [name|msg] eqn:R;
    [|now left].
  destruct (meta_truthy _) eqn:T; [|now left].
  apply meta_truthy_inv in T as [r Hr]. rewrite Hr.
  right. exists name, r. auto.
Qed.

(** X15. [attach_ts] changes the cache at most under one key, and that
    key is the name of an open object in which the identifier occurs; the
    open objects stay as they are. *)
Theorem attach_writes_only_open_objects (h : host)
    (ts_path obj_identifier : pystr) (s : session) (k : pystr) :
  od_get (cache (attach_ts h ts_path obj_identifier s)) k <> od_get (cache s) k ->
  In k (objects s) /\ contains obj_identifier k = true /\
  resolve_target (objects s) obj_identifier = inl k.
Proof.
  destruct (attach_ts_cases h ts_path obj_identifier s)
    as [E|(name & r & R & _ & E)]; rewrite E.
  - intros H. now contradiction H.
  - rewrite pretty_print_console. simpl. rewrite od_get_set.
    destruct (str_eqb name k) eqn:Hk; [|intros H; now contradiction H].
    apply str_eqb_eq in Hk. subst k. intros _.
    destruct (resolve_target_sound _ _ _ R). auto.
Qed.

Lemma attach_writes_only_open_objects_witness :
  In (str "m1") (objects demo_session) /\
  contains (str "m") (str "m1") = true /\
  resolve_target (objects demo_session) (str "m") = inl (str "m1").
Proof.
  apply (attach_writes_only_open_objects demo_host (str "/work/m1.txt") (str "m")
           demo_session (str "m1")).
  vm_compute. discriminate.
Defined.

(** X16. After [attach_ts] has attached an existing file to an object,
    [show_ts_info] for that object prints the attached record from the
    cache, whatever the file system has become since. *)
Theorem attach_then_show (h : host) (ts_path obj_identifier name : pystr)
    (s : session) :
  os_path_exists h (expanduser h ts_path) = true ->
  resolve_target (objects s) obj_identifier = inl name ->
  name <> [] ->
  exists r,
    _parse_ts_metadata h (expanduser h ts_path) default_max_header_lines = Some r /\
    forall h' ts',
      show_ts_info h' (Some name) ts' (attach_ts h ts_path obj_identifier s)
      = _pretty_print_trimmed name (Some r) (attach_ts h ts_path obj_identifier s).
Proof.
  intros Hex R Hn.
  assert (Hp := parse_exists h _ default_max_header_lines Hex).
  eexists. split; [exact Hp|].
  intros h' ts'. apply show_cached; [exact Hn|].
  unfold attach_ts. cbv zeta. rewrite Hex, R. cbn [negb].
  rewrite Hp, meta_truthy_some. cbn [negb].
  unfold cache_get. rewrite pretty_print_console. simpl.
  now rewrite od_get_set, str_eqb_refl.
Qed.

Lemma attach_then_show_witness :
  exists r,
    _parse_ts_metadata demo_host (expanduser demo_host (str "/work/m1.txt"))
      default_max_header_lines = Some r /\
    forall h' ts',
      show_ts_info h' (Some (str "m1")) ts'
        (attach_ts demo_host (str "/work/m1.txt") (str "m") demo_session)
      = _pretty_print_trimmed (str "m1") (Some r)
          (attach_ts demo_host (str "/work/m1.txt") (str "m") demo_session).
Proof.
  apply (attach_then_show demo_host (str "/work/m1.txt") (str "m") (str "m1")
           demo_session).
  - vm_compute; reflexivity.
  - vm_compute; reflexivity.
  - discriminate.
Defined.

(** ** Resolving and loading *)

Lemma resolve_sound (h : host) (s : session) (identifier : pystr) :
  match _resolve_object_or_path h s identifier with
  | RPath p =>
      p = expanduser h identifier /\ os_path_exists h p = true /\
      (endswith (str ".pdb") (lower p) || endswith (str ".ent") (lower p)) = true
  | RObject n => In n (objects s) /\ contains identifier n = true
  | RNothing => True
  end.
Proof.
  unfold _resolve_object_or_path. cbv zeta.
  destruct (os_path_exists h (expanduser h identifier)) eqn:Hex; simpl.
  - destruct (endswith _ _ || endswith _ _) eqn:Hs; [auto|].
    destruct (existsb (str_eqb identifier) (objects s)) eqn:E.
    + apply existsb_exists in E as (x & Hx & Hxe).
      apply str_eqb_eq in Hxe. subst x. split; [exact Hx|apply contains_refl].
    + destruct (filter (contains identifier) (objects s)) as [|n [|n' l]] eqn:F;
        try exact I.
      assert (Hin : In n (filter (contains identifier) (objects s)))
        by (rewrite F; simpl; auto).
      apply filter_In in Hin. exact Hin.
  - destruct (existsb (str_eqb identifier) (objects s)) eqn:E.
    + apply existsb_exists in E as (x & Hx & Hxe).
      apply str_eqb_eq in Hxe. subst x. split; [exact Hx|apply contains_refl].
    + destruct (filter (contains identifier) (objects s)) as [|n [|n' l]] eqn:F;
        try exact I.
      assert (Hin : In n (filter (contains identifier) (objects s)))
        by (rewrite F; simpl; auto).
      apply filter_In in Hin. exact Hin.
Qed.

(** X17. [_resolve_object_or_path] answers with a path only for an
    existing file named [.pdb] or [.ent] (in any case), and with an object
    only for an open object in whose name the identifier occurs. *)
Theorem resolve_is_sound (h : host) (s : session) (identifier : pystr) :
  match _resolve_object_or_path h s identifier with
  | RPath p =>
      p = expanduser h identifier /\ os_path_exists h p = true /\
      (endswith (str ".pdb") (lower p) || endswith (str ".ent") (lower p)) = true
  | RObject n => In n (objects s) /\ contains identifier n = true
  | RNothing => True
  end.
Proof.
  exact (resolve_sound h s identifier).
Qed.

(** X18. A TS file that [_find_ts_candidate] proposes exists. *)
Theorem ts_candidate_exists (h : host) (pdb_path c : pystr) :
  _find_ts_candidate h pdb_path = Some c -> os_path_exists h c = true.
Proof.
  unfold _find_ts_candidate. cbv zeta.
  destruct (find (os_path_exists h) _) as [c0|] eqn:F.
  - intros [= <-]. apply find_some in F. apply F.
  - destruct (os_listdir h _) as [names|]; [|discriminate].
    intros F2. apply find_some in F2 as [_ Hf].
    unfold os_path_isfile in Hf. unfold os_path_exists.
    now destruct (stat h c) as [[]|].
Qed.

Lemma ts_candidate_exists_witness :
  os_path_exists demo_host2 (str "/d/model.ts") = true.
Proof.
  apply (ts_candidate_exists demo_host2 (str "/d/model.pdb") (str "/d/model.ts")).
  vm_compute; reflexivity.
Defined.


(** ** Parsing several files *)

Lemma find_app {A} (f : A -> bool) (l1 l2 : list A) :
  find f (l1 ++ l2) = match find f l1 with Some x => Some x | None => find f l2 end.
Proof.
  induction l1 as [|a l1 IH]; simpl; [reflexivity|].
  destruct (f a); [reflexivity|exact IH].
Qed.

Lemma parse_each_spec (h : host) (paths : list pystr) :
  forall s,
    snd (parse_each h paths s) = map (entry_of h) paths /\
    objects (fst (parse_each h paths s)) = objects s /\
    forall k,
      od_get (cache (fst (parse_each h paths s))) k =
      match find (fun path => str_eqb (ts_key path) k) (rev paths) with
      | Some path => Some (_parse_ts_metadata h path default_max_header_lines)
      | None => od_get (cache s) k
      end.
Proof.
  induction paths as [|path more IH]; intros s; simpl.
  - auto.
  - cbv zeta.
    set (s1 := _pretty_print_trimmed (ts_key path)
                 (_parse_ts_metadata h path default_max_header_lines)
                 (cache_store (ts_key path)
                    (_parse_ts_metadata h path default_max_header_lines) s)).
    destruct (IH s1) as (Hr & Ho & Hc).
    destruct (parse_each h more s1) as [s' results]. simpl in *.
    split; [now rewrite Hr|].
    split.
    + rewrite Ho. unfold s1. rewrite pretty_print_console. reflexivity.
    + intros k. rewrite Hc, find_app. simpl.
      destruct (find _ (rev more)); [reflexivity|].
      unfold s1. rewrite pretty_print_console. simpl.
      rewrite od_get_set. now destruct (str_eqb (ts_key path) k).
Qed.

(** X20. [parse_ts] works on the paths the pattern matches, or on the path
    itself when nothing matches but it exists.  It returns one entry per
    path, in order, each with the key derived from the base name and the
    parse of that path; afterwards the cache holds, under each such key,
    the parse of the last path with that key, and every other entry is as
    before.  The open objects stay as they are. *)
Theorem parse_ts_caches_each_key (h : host) (glob : pystr -> list pystr)
    (ts_pattern : pystr) (s : session) :
  snd (parse_ts h glob ts_pattern s)
  = map (entry_of h) (matched_paths h glob ts_pattern) /\
  objects (fst (parse_ts h glob ts_pattern s)) = objects s /\
  forall k,
    od_get (cache (fst (parse_ts h glob ts_pattern s))) k =
    match find (fun path => str_eqb (ts_key path) k)
            (rev (matched_paths h glob ts_pattern)) with
    | Some path => Some (_parse_ts_metadata h path default_max_header_lines)
    | None => od_get (cache s) k
    end.
Proof.
  unfold parse_ts, matched_paths.
  destruct (glob (expanduser h ts_pattern)) as [|m ms].
  - cbv zeta. destruct (os_path_exists h (expanduser h ts_pattern)).
    + apply parse_each_spec.
    + simpl. auto.
  - apply parse_each_spec.
Qed.

(** X21. A pattern that matches nothing and names no existing path makes
    [parse_ts] print that no files matched and return the empty list; the
    cache is not touched. *)
Theorem parse_ts_without_match (h : host) (glob : pystr -> list pystr)
    (ts_pattern : pystr) (s : session) :
  glob (expanduser h ts_pattern) = [] ->
  os_path_exists h (expanduser h ts_pattern) = false ->
  snd (parse_ts h glob ts_pattern s) = [] /\
  cache (fst (parse_ts h glob ts_pattern s)) = cache s /\
  console (fst (parse_ts h glob ts_pattern s))
  = console s ++ [[VStr (str "parse_ts: no files matched pattern:");
                   VStr ts_pattern]].
Proof.
  intros Hg He. unfold parse_ts. rewrite Hg. cbv zeta. rewrite He.
  simpl. auto.
Qed.

Lemma parse_ts_without_match_witness :
  snd (parse_ts demo_host2 demo_glob2 (str "/d/z*") demo_session) = [] /\
  cache (fst (parse_ts demo_host2 demo_glob2 (str "/d/z*") demo_session))
  = cache demo_session /\
  console (fst (parse_ts demo_host2 demo_glob2 (str "/d/z*") demo_session))
  = console demo_session
    ++ [[VStr (str "parse_ts: no files matched pattern:"); VStr (str "/d/z*")]].
Proof.
  apply (parse_ts_without_match demo_host2 demo_glob2 (str "/d/z*") demo_session);
    vm_compute; reflexivity.
Defined.

(** ** Rendering *)

(** X22. Rendering looks at the five fields STOICH, AUTHOR, METHOD, SCORE
    and MODEL only: two records that agree on them are printed alike,
    whatever their other fields, remarks and OTHER entries are. *)
Theorem render_reads_five_fields (key : pystr) (r1 r2 : meta) (s : session) :
  (forall k, In k order -> meta_get r1 k = meta_get r2 k) ->
  _pretty_print_trimmed key (Some r1) s = _pretty_print_trimmed key (Some r2) s.
Proof.
  intros H. rewrite !pretty_print_console.
  assert (E : listing r1 = listing r2).
  { unfold listing. cbn [flat_map fst snd].
    rewrite !H by (unfold order; simpl; auto 6). reflexivity. }
  now rewrite E.
Qed.

Lemma render_reads_five_fields_witness :
  _pretty_print_trimmed (str "k")
    (Some (mk_meta [(str "AUTHOR", Some (str "Bob")); (str "TITLE", Some (str "t"))]
             [str "REMARK r"] None)) demo_session
  = _pretty_print_trimmed (str "k")
      (Some (mk_meta [(str "AUTHOR", Some (str "Bob"))] [] None)) demo_session.
Proof.
  apply (render_reads_five_fields (str "k")
           (mk_meta [(str "AUTHOR", Some (str "Bob")); (str "TITLE", Some (str "t"))]
              [str "REMARK r"] None)
           (mk_meta [(str "AUTHOR", Some (str "Bob"))] [] None) demo_session).
  intros k Hk. unfold order in Hk. simpl in Hk.
  repeat (destruct Hk as [<-|Hk]; [vm_compute; reflexivity|]). contradiction.
Defined.

(** ** Lines that name a canonical key *)

Lemma aliases_not_empty :
  forall e a, In e _KEY_ALIASES -> In a (snd e) -> truthy a = true.
Proof.
  assert (H : forallb (fun e => forallb truthy (snd e)) _KEY_ALIASES = true)
    by reflexivity.
  intros e a He Ha.
  rewrite forallb_forall in H. specialize (H e He).
  rewrite forallb_forall in H. exact (H a Ha).
Qed.

Lemma identify_complete (up lt : pystr) :
  alias_occurs up = true -> exists k, _identify_canonical_key up lt = Some k.
Proof.
  unfold alias_occurs, _identify_canonical_key. intros H.
  apply existsb_exists in H as (e & He & Ha).
  apply existsb_exists in Ha as (a & Ha & Hc).
  destruct (find (fun e0 => existsb (fun a0 => truthy a0 && contains a0 up) (snd e0))
              _KEY_ALIASES) as [[c al]|] eqn:F; [eauto|].
  exfalso. pose proof (find_none _ _ F e He) as N. cbv beta in N.
  assert (T : existsb (fun a0 => truthy a0 && contains a0 up) (snd e) = true).
  { apply existsb_exists. exists a. split; [exact Ha|].
    now rewrite (aliases_not_empty e a He Ha), Hc. }
  congruence.
Qed.

(** X23. A header line in whose upper-case text an alias of the table
    occurs anywhere is taken as a line of a canonical key: the loop goes
    on, and neither the remarks nor [other] receive the line. *)
Theorem alias_line_never_in_other (i : nat) (raw : pystr) (st : pstate) :
  alias_occurs (upper (rstrip_nl raw)) = true ->
  is_empty (strip (rstrip_nl raw)) = false ->
  is_remark_line raw = false ->
  stops raw = false ->
  exists k st',
    recognized raw = Some k /\ canonical k = true /\
    loop_body i raw st = Next st' /\
    remarks st' = remarks st /\ other st' = other st.
Proof.
  intros Ha Hb Hr Hs.
  destruct (identify_complete _ (left_token_of (rstrip_nl raw)) Ha) as [k Hk].
  unfold is_remark_line in Hr. rewrite Hb in Hr. cbn [negb andb] in Hr.
  unfold stops in Hs.
  assert (Hrec : recognized raw = Some k).
  { unfold recognized. cbv zeta. now rewrite Hb, Hs, Hr. }
  exists k. unfold loop_body. cbv zeta. rewrite Hb, Hs, Hr, Hk.
  destruct (_ || _);
    [eexists; repeat split; [exact Hrec|eapply identify_canonical; exact Hk]|].
  destruct (truthy _);
    eexists; repeat split; try exact Hrec; eapply identify_canonical; exact Hk.
Qed.

Lemma alias_line_never_in_other_witness :
  exists k st',
    recognized (str "Atmosphere - thin" ++ nl) = Some k /\ canonical k = true /\
    loop_body 0 (str "Atmosphere - thin" ++ nl) init_pstate = Next st' /\
    remarks st' = remarks init_pstate /\ other st' = other init_pstate.
Proof.
  apply (alias_line_never_in_other 0 (str "Atmosphere - thin" ++ nl) init_pstate);
    vm_compute; reflexivity.
Defined.

(** ** Values *)

Lemma lstrip_by_suffix (p : ascii -> bool) (s : pystr) :
  exists pre, s = pre ++ lstrip_by p s.
Proof.
  induction s as [|c s [pre IH]]; simpl.
  - exists []. reflexivity.
  - destruct (p c).
    + exists (c :: pre). simpl. now rewrite <- IH.
    + exists []. reflexivity.
Qed.

Lemma lstrip_by_head (p : ascii -> bool) (s : pystr) (c : ascii) (t : pystr) :
  lstrip_by p s = c :: t -> p c = false.
Proof.
  induction s as [|a s IH]; simpl; [discriminate|].
  destruct (p a) eqn:E; [exact IH|].
  intros [= <- _]. exact E.
Qed.

Lemma rstrip_by_prefix (p : ascii -> bool) (s : pystr) :
  exists suf, s = rstrip_by p s ++ suf.
Proof.
  unfold rstrip_by. destruct (lstrip_by_suffix p (rev s)) as [pre H].
  exists (rev pre). rewrite <- rev_app_distr, <- H. symmetry. apply rev_involutive.
Qed.

Lemma rstrip_by_last (p : ascii -> bool) (s init : pystr) (c : ascii) :
  rstrip_by p s = init ++ [c] -> p c = false.
Proof.
  unfold rstrip_by. intros H.
  apply (f_equal (@rev ascii)) in H.
  rewrite rev_involutive, rev_app_distr in H. simpl in H.
  eapply lstrip_by_head. exact H.
Qed.

Lemma substring_refl (s : pystr) : substring s s.
Proof. exists [], []. now rewrite app_nil_r. Qed.

Lemma substring_trans (a b c : pystr) :
  substring a b -> substring b c -> substring a c.
Proof.
  intros (p1 & q1 & ->) (p2 & q2 & ->).
  exists (p2 ++ p1), (q1 ++ q2). now rewrite <- !app_assoc.
Qed.

Lemma substring_suffix (pre s : pystr) : substring s (pre ++ s).
Proof. exists pre, []. now rewrite app_nil_r. Qed.

Lemma substring_prefix (s suf : pystr) : substring s (s ++ suf).
Proof. exists [], suf. reflexivity. Qed.

Lemma lstrip_by_substring (p : ascii -> bool) (s : pystr) :
  substring (lstrip_by p s) s.
Proof.
  destruct (lstrip_by_suffix p s) as [pre H]. rewrite H at 2.
  apply substring_suffix.
Qed.

Lemma rstrip_by_substring (p : ascii -> bool) (s : pystr) :
  substring (rstrip_by p s) s.
Proof.
  destruct (rstrip_by_prefix p s) as [suf H]. rewrite H at 2.
  apply substring_prefix.
Qed.

Lemma strip_substring (s : pystr) : substring (strip s) s.
Proof.
  unfold strip, rstrip, lstrip.
  eapply substring_trans; [apply rstrip_by_substring|apply lstrip_by_substring].
Qed.

Lemma strip_head (s : pystr) (c : ascii) (t : pystr) :
  strip s = c :: t -> isspace c = false.
Proof.
  unfold strip, rstrip, lstrip. intros H.
  destruct (rstrip_by_prefix isspace (lstrip_by isspace s)) as [suf E].
  rewrite H in E. simpl in E.
  eapply lstrip_by_head. exact E.
Qed.

Lemma split_first_spec (sep : ascii) (s a b : pystr) :
  split_first sep s = Some (a, b) -> s = a ++ sep :: b.
Proof.
  revert a. induction s as [|c s IH]; simpl; intros a; [discriminate|].
  destruct (Ascii.eqb c sep) eqn:E.
  - intros [= <- <-]. apply Ascii.eqb_eq in E. now subst.
  - destruct (split_first sep s) as [[a' b']|]; [|discriminate].
    intros [= <- <-]. simpl. now rewrite (IH a' eq_refl).
Qed.

Lemma take_word_spec (s : pystr) : s = fst (take_word s) ++ snd (take_word s).
Proof.
  induction s as [|c s IH]; simpl; [reflexivity|].
  destruct (isspace c); [reflexivity|].
  destruct (take_word s) as [w r]. simpl in *. now rewrite <- IH.
Qed.

Lemma split_ws1_second (s w p1 : pystr) :
  split_ws1 s = [w; p1] -> substring p1 s.
Proof.
  unfold split_ws1.
  destruct (lstrip s) as [|c t] eqn:L; [discriminate|].
  pose proof (take_word_spec (c :: t)) as T.
  destruct (take_word (c :: t)) as [w' r]. simpl in T.
  destruct (lstrip r) as [|c' t'] eqn:R; [discriminate|].
  intros [= _ <-].
  eapply substring_trans; [|apply (lstrip_by_substring isspace s)].
  fold (lstrip s). rewrite L, T.
  eapply substring_trans; [|apply substring_suffix].
  rewrite <- R. apply lstrip_by_substring.
Qed.

Lemma value_trimmed (x : pystr) :
  let v := rstrip_chars (str " .;") (strip x) in
  substring v x /\
  (forall c t, v = c :: t -> isspace c = false) /\
  (forall init c, v = init ++ [c] -> char_in (str " .;") c = false).
Proof.
  cbv zeta. split; [|split].
  - eapply substring_trans; [apply rstrip_by_substring|apply strip_substring].
  - intros c t H.
    destruct (rstrip_by_prefix (char_in (str " .;")) (strip x)) as [suf E].
    unfold rstrip_chars in H. rewrite H in E. simpl in E.
    eapply strip_head. exact E.
  - intros init c H. eapply rstrip_by_last. exact H.
Qed.

(** X24. The value [_extract_value_from_line] returns is a piece of the
    line; it does not start with whitespace and does not end with a space,
    a period or a semicolon. *)
Theorem extracted_value_is_trimmed (line : pystr) :
  substring (_extract_value_from_line line) line /\
  (forall c t, _extract_value_from_line line = c :: t -> isspace c = false) /\
  (forall init c, _extract_value_from_line line = init ++ [c] ->
                  char_in (str " .;") c = false).
Proof.
  unfold _extract_value_from_line.
  destruct (split_first ":"%char line) as [[before after]|] eqn:S.
  - apply split_first_spec in S.
    destruct (value_trimmed (strip after)) as (H1 & H2 & H3).
    split; [|split; assumption].
    eapply substring_trans; [exact H1|].
    eapply substring_trans; [apply strip_substring|].
    rewrite S. exists (before ++ [":"%char]), [].
    rewrite app_nil_r, <- app_assoc. reflexivity.
  - destruct (split_ws1 (strip line)) as [|w [|p1 [|x l]]] eqn:W;
      try (destruct (value_trimmed line) as (H1 & H2 & H3);
           split; [exact H1|split; assumption]).
    destruct (value_trimmed p1) as (H1 & H2 & H3).
    split; [|split; assumption].
    eapply substring_trans; [exact H1|].
    eapply substring_trans; [eapply split_ws1_second; exact W|].
    apply strip_substring.
Qed.

Lemma clean_loop_suffix (val vup : pystr) (aliases : list pystr) :
  val <> [] ->
  (exists pre, val = pre ++ clean_loop val vup aliases) /\
  clean_loop val vup aliases <> [].
Proof.
  intros Hv. induction aliases as [|a more IH]; cbn [clean_loop]; cbv zeta.
  - split; [exists []; reflexivity|exact Hv].
  - destruct (truthy a && startswith a vup); [|exact IH].
    destruct (truthy (lstrip_chars (str " :-.") (skipn (length a) val))) eqn:T;
      [|exact IH].
    split.
    + destruct (lstrip_by_suffix (char_in (str " :-.")) (skipn (length a) val))
        as [pre H].
      exists (firstn (length a) val ++ pre).
      rewrite <- app_assoc. unfold lstrip_chars. rewrite <- H.
      symmetry. apply firstn_skipn.
    + intros E. rewrite E in T. discriminate.
Qed.

(** X25. [_clean_leading_fragment] only cuts at the front: its result is
    what is left of the value after some leading part, and for a value
    that is not empty it is not empty. *)
Theorem clean_fragment_is_suffix (val : pystr) :
  (exists pre, val = pre ++ _clean_leading_fragment val) /\
  (val <> [] -> _clean_leading_fragment val <> []).
Proof.
  unfold _clean_leading_fragment. destruct val as [|c val]; simpl is_empty.
  - split; [exists []; reflexivity|auto].
  - cbv iota.
    destruct (clean_loop_suffix (c :: val) (lstrip (upper (c :: val)))
                (concat (map snd _KEY_ALIASES))) as [H1 H2]; [discriminate|].
    split; [exact H1|intros _; exact H2].
Qed.

(** ** Choosing an object by its number *)

Lemma digits_are_digits (d : Decimal.uint) :
  forallb isdigit (list_ascii_of_string (NilEmpty.string_of_uint d)) = true.
Proof.
  induction d; cbn [NilEmpty.string_of_uint list_ascii_of_string forallb];
    try reflexivity; rewrite IHd; reflexivity.
Qed.

Lemma int_of_digits_acc (d : Decimal.uint) :
  forall acc,
    fold_left (fun a c => 10 * a + (nat_of_ascii c - 48))
      (list_ascii_of_string (NilEmpty.string_of_uint d)) acc
    = Nat.of_uint_acc d acc.
Proof.
  induction d; intros acc;
    cbn [NilEmpty.string_of_uint list_ascii_of_string fold_left Nat.of_uint_acc];
    try reflexivity;
    rewrite IHd; f_equal; rewrite Nat.tail_mul_spec;
    match goal with
    | |- context [nat_of_ascii ?c] =>
        let v := eval vm_compute in (nat_of_ascii c) in
        change (nat_of_ascii c) with v
    end; lia.
Qed.

Lemma int_of_str (n : nat) : int_of_digits (str_of_nat n) = n.
Proof.
  unfold int_of_digits, str_of_nat. rewrite int_of_digits_acc.
  apply Unsigned.of_to.
Qed.

Lemma str_of_nat_digits (n : nat) : forallb isdigit (str_of_nat n) = true.
Proof. apply digits_are_digits. Qed.

Lemma str_of_nat_not_empty (n : nat) : is_empty (str_of_nat n) = false.
Proof.
  destruct (str_of_nat n) eqn:E; [|reflexivity].
  pose proof (int_of_str n) as H. rewrite E in H. cbn in H. subst n.
  discriminate E.
Qed.

Lemma print_numbered_console (objs : list pystr) :
  forall i s,
    print_numbered i objs s
    = mk_session (cache s) (console s ++ numbered_lines i objs) (objects s).
Proof.
  induction objs as [|n more IH]; intros i s; simpl.
  - rewrite app_nil_r. now destruct s.
  - rewrite IH. unfold print. simpl. now rewrite <- app_assoc.
Qed.

Lemma numbered_lines_nth (objs : list pystr) :
  forall i n,
    n < length objs ->
    nth_error (numbered_lines i objs) n
    = Some [VStr (str "  " ++ str_of_nat (i + n) ++ str ") " ++ nth n objs [])].
Proof.
  induction objs as [|o more IH]; intros i n Hn; simpl in Hn; [lia|].
  destruct n as [|n]; cbn [nth_error numbered_lines nth].
  - now rewrite Nat.add_0_r.
  - rewrite IH by lia. replace (S i + n) with (i + S n) by lia. reflexivity.
Qed.

(** X26. With several objects open and no key given, [show_ts_info] lists
    the objects with numbers from 1; when the user answers with the number
    shown next to an object, that object is the one whose metadata is
    shown. *)
Theorem numbered_choice_picks_listed_object (h : host) (ts_path : option pystr)
    (s : session) (line : pystr) (n : nat) :
  2 <= length (objects s) ->
  n < length (objects s) ->
  stdin h = Some line ->
  strip line = str_of_nat (S n) ->
  nth_error (numbered_lines 1 (objects s)) n
  = Some [VStr (str "  " ++ str_of_nat (S n) ++ str ") " ++ nth n (objects s) [])] /\
  show_ts_info h None ts_path s
  = show_target h (nth n (objects s) []) ts_path
      (print [VStr (str "show_ts_info: you selected:"); VStr (nth n (objects s) [])]
         (print prompt_notice
            (mk_session (cache s)
               ((console s ++ [choose_notice]) ++ numbered_lines 1 (objects s))
               (objects s)))).
Proof.
  intros H2 Hn Hin Hline. split.
  - now rewrite numbered_lines_nth.
  - unfold show_ts_info.
    destruct (objects s) as [|a [|b l]] eqn:Hobj; simpl in H2; try lia.
    cbv zeta. rewrite Hin, Hline.
    rewrite str_of_nat_not_empty, str_of_nat_digits, int_of_str.
    assert (Hr : (1 <=? S n) && (S n <=? length (a :: b :: l)) = true).
    { apply andb_true_iff. split; [reflexivity|]. apply Nat.leb_le. lia. }
    rewrite Hr. replace (S n - 1) with n by lia.
    rewrite print_numbered_console. unfold print.
    cbn [cache console objects]. rewrite Hobj. reflexivity.
Qed.

Lemma numbered_choice_picks_listed_object_witness :
  nth_error (numbered_lines 1 [str "m1"; str "m2"]) 1
  = Some [VStr (str "  " ++ str_of_nat 2 ++ str ") " ++ str "m2")] /\
  show_ts_info demo_host2 None None (mk_session [] [] [str "m1"; str "m2"])
  = show_target demo_host2 (str "m2") None
      (print [VStr (str "show_ts_info: you selected:"); VStr (str "m2")]
         (print prompt_notice
            (mk_session []
               (([] ++ [choose_notice]) ++ numbered_lines 1 [str "m1"; str "m2"])
               [str "m1"; str "m2"]))).
Proof.
  apply (numbered_choice_picks_listed_object demo_host2 None
           (mk_session [] [] [str "m1"; str "m2"]) (str "2" ++ nl) 1).
  - simpl; lia.
  - simpl; lia.
  - reflexivity.
  - vm_compute; reflexivity.
Defined.

(** ** More on where the header ends, and on the stoichiometry *)

(** X27. Every line whose trimmed text starts, in any case, with ATOM,
    HETATM, TER or ENDMDL ends the header scan, whatever follows the tag on
    the line. *)
Theorem tagged_line_stops (raw : pystr) :
  existsb (fun t => startswith t (upper (strip (rstrip_nl raw))))
    coordinate_tags = true ->
  stops raw = true.
Proof.
  intros Ht. unfold stops, _looks_like_coordinate_line.
  destruct (strip (rstrip_nl raw)) as [|c t] eqn:Hs; [discriminate Ht|].
  destruct (rstrip_nl raw) as [|c' t'] eqn:Hl; [discriminate Hs|].
  cbn [is_empty orb].
  destruct (matched (re_search re_three_decimals (c' :: t'))); [reflexivity|].
  fold coordinate_tags. rewrite Ht. reflexivity.
Qed.

Lemma tagged_line_stops_witness :
  stops (str "Terminal residues: none" ++ nl) = true.
Proof.
  apply (tagged_line_stops (str "Terminal residues: none" ++ nl)).
  vm_compute; reflexivity.
Defined.

Lemma finditer_demands (q : ascii -> bool) (r : regex) :
  Demands q r ->
  forall fuel s, existsb q s = false -> finditer fuel r s = [].
Proof.
  intros D. induction fuel as [|fuel IH]; intros s Hq; simpl; [reflexivity|].
  destruct (re_match r s) as [m|] eqn:E.
  - unfold re_match in E. apply (run_demands q r D) in E. congruence.
  - destruct s as [|c t]; [reflexivity|].
    apply IH. simpl in Hq. apply orb_false_iff in Hq. tauto.
Qed.

Lemma demands_stoich_token : Demands isdigit re_stoich_token.
Proof.
  unfold re_stoich_token, star, plus, opt. simpl seq.
  do 4 apply demands_seq_r. apply demands_group. constructor; auto.
Qed.

Lemma demands_compact : Demands isdigit re_compact.
Proof.
  unfold re_compact, plus.
  apply demands_group, demands_seq_r. constructor; auto.
Qed.

(** X28. A text without any digit yields no stoichiometry:
    [_find_stoich_tokens_in_text] returns nothing for it. *)
Theorem stoich_needs_a_digit (text : pystr) :
  existsb isdigit text = false -> _find_stoich_tokens_in_text text = None.
Proof.
  intros Hd. unfold _find_stoich_tokens_in_text, re_findall.
  destruct (is_empty text); [reflexivity|].
  rewrite (finditer_demands isdigit _ demands_stoich_token _ _ Hd).
  rewrite (finditer_demands isdigit _ demands_compact _ _ Hd).
  reflexivity.
Qed.

Lemma stoich_needs_a_digit_witness :
  _find_stoich_tokens_in_text (str "AUTHOR: Bob" ++ nl) = None.
Proof.
  apply (stoich_needs_a_digit (str "AUTHOR: Bob" ++ nl)).
  vm_compute; reflexivity.
Defined.

(** * Buckets, stoichiometry and the cache *)

(** ** One bucket for each header line *)

Lemma not_blank_truthy (s : pystr) : is_empty (strip s) = false -> truthy s = true.
Proof. destruct s; [discriminate|reflexivity]. Qed.

Lemma truthy_false (s : pystr) : truthy s = false -> s = [].
Proof. destruct s; [reflexivity|discriminate]. Qed.

Lemma truthy_true (s : pystr) : truthy s = true -> s <> [].
Proof. destruct s; [discriminate|discriminate]. Qed.

Lemma recognized_passed (raw : pystr) :
  is_empty (strip (rstrip_nl raw)) = false ->
  stops raw = false ->
  is_remark_line raw = false ->
  recognized raw =
  _identify_canonical_key (upper (rstrip_nl raw)) (left_token_of (rstrip_nl raw)).
Proof.
  intros Hb Hs Hr. unfold stops in Hs. unfold is_remark_line in Hr.
  rewrite Hb in Hr. cbn [negb andb] in Hr.
  unfold recognized. cbv zeta. now rewrite Hb, Hs, Hr.
Qed.

(** The loop body puts a passed line into the bucket the specification
    names. *)
Lemma loop_body_bucket (i : nat) (raw : pystr) (st : pstate) :
  is_empty (strip (rstrip_nl raw)) = false ->
  stops raw = false ->
  exists b,
    bucket_of i raw (other st) b /\ loop_body i raw st = Next (put b st).
Proof.
  intros Hb Hs.
  destruct (is_remark_line raw) eqn:Hr.
  - exists (InRemarks (strip (rstrip_nl raw))). split; [now apply in_remarks|].
    unfold stops in Hs. unfold is_remark_line in Hr.
    rewrite Hb in Hr. cbn [negb andb] in Hr.
    unfold loop_body. cbv zeta. now rewrite Hb, Hs, Hr.
  - pose proof (recognized_passed raw Hb Hs Hr) as Hrec.
    unfold loop_body. cbv zeta.
    unfold stops in Hs. rewrite Hb, Hs.
    assert (Hr' : startswith (str "REMARK") (strip (upper (rstrip_nl raw))) = false).
    { unfold is_remark_line in Hr. rewrite Hb in Hr. exact Hr. }
    rewrite Hr'.
    destruct (_identify_canonical_key (upper (rstrip_nl raw))
                (left_token_of (rstrip_nl raw))) as [canon|] eqn:Hid.
    + fold (extracted raw). fold (is_noise (extracted raw)).
      destruct (is_noise (extracted raw)) eqn:Hn.
      { exists NoBucket. split; [|reflexivity].
        eapply field_discarded; eauto. }
      destruct (truthy (extracted raw)) eqn:Ht.
      * exists (InField canon (extracted raw)). split; [|reflexivity].
        apply in_field; [exact Hr|]. unfold stored. now rewrite Hrec, Hn, Ht.
      * exists NoBucket. split; [|reflexivity].
        eapply field_discarded; eauto using truthy_false.
    + destruct (re_match re_generic (rstrip_nl raw)) as [m|] eqn:Hg.
      * assert (Hgp : generic_pair raw
                      = Some (strip (nth 0 (groups m) []), strip (nth 1 (groups m) [])))
          by (unfold generic_pair; now rewrite Hg).
        destruct (truthy (strip (nth 0 (groups m) []))) eqn:Hk;
          [|exists NoBucket; split; [|reflexivity];
            eapply generic_discarded; eauto using truthy_false].
        destruct (truthy (strip (nth 1 (groups m) []))) eqn:Hv;
          [|exists NoBucket; split; [|reflexivity];
            eapply generic_discarded; eauto using truthy_false].
        destruct (od_mem (other st) (strip (nth 0 (groups m) []))) eqn:Hm;
          [exists NoBucket; split; [|reflexivity];
           eapply generic_discarded; eauto|].
        eexists (InOtherKey _ _). split.
        -- eapply in_other_key; eauto using truthy_true.
        -- cbn [andb negb put]. now rewrite (od_set_new _ _ _ Hm).
      * assert (Hgp : generic_pair raw = None)
          by (unfold generic_pair; now rewrite Hg).
        rewrite (not_blank_truthy _ Hb). cbn [andb]. fold (line_tag i).
        destruct (length (strip (rstrip_nl raw)) <? 300) eqn:Hlen.
        -- apply Nat.ltb_lt in Hlen.
           destruct (od_mem (other st) (line_tag i)) eqn:Hm.
           ++ exists NoBucket. split; [|reflexivity].
              apply line_discarded; auto.
           ++ exists (InOtherLine (line_tag i) (strip (rstrip_nl raw))).
              split; [now apply in_other_line|].
              cbn [negb put]. now rewrite (od_set_new _ _ _ Hm).
        -- apply Nat.ltb_ge in Hlen.
           exists NoBucket. split; [|reflexivity].
           apply line_discarded; auto.
Qed.

Lemma stored_recognized (raw canon val : pystr) :
  stored raw = Some (canon, val) ->
  recognized raw = Some canon /\ is_noise (extracted raw) = false /\
  extracted raw = val /\ val <> [].
Proof.
  unfold stored. destruct (recognized raw) as [c|]; [|discriminate].
  destruct (is_noise (extracted raw)); [discriminate|].
  destruct (truthy (extracted raw)) eqn:T; [|discriminate].
  intros [= <- <-]. repeat split. now apply truthy_true.
Qed.

(** The cases of [bucket_of] exclude one another. *)
Lemma bucket_of_unique (i : nat) (raw : pystr) (o : odict pystr) (b b' : bucket) :
  bucket_of i raw o b -> bucket_of i raw o b' -> b = b'.
Proof.
  intros H H'.
  destruct H as [Hr|canon val Hr Hs|canon Hr Hc Hd|gk gv Hr Hc Hg Hk Hv Hm
                 |gk gv Hr Hc Hg Hd|Hr Hc Hg Hl Hm|Hr Hc Hg Hd];
    destruct H' as [Hr'|canon' val' Hr' Hs'|canon' Hr' Hc' Hd'
                    |gk' gv' Hr' Hc' Hg' Hk' Hv' Hm'
                    |gk' gv' Hr' Hc' Hg' Hd'|Hr' Hc' Hg' Hl' Hm'|Hr' Hc' Hg' Hd'];
    try reflexivity; try congruence;
    try (apply stored_recognized in Hs as (S1 & S2 & S3 & S4));
    try (apply stored_recognized in Hs' as (S1' & S2' & S3' & S4'));
    try congruence;
    try (destruct Hd as [Hd|Hd]; congruence);
    try (destruct Hd' as [Hd'|Hd']; congruence);
    try (rewrite Hg in Hg'; injection Hg' as <- <-);
    try (destruct Hd as [Hd|[Hd|Hd]]; congruence);
    try (destruct Hd' as [Hd'|[Hd'|Hd']]; congruence);
    try (destruct Hd as [Hd|Hd]; [lia|congruence]);
    try (destruct Hd' as [Hd'|Hd']; [lia|congruence]).
Qed.

(** C2 as stated fails in both directions.  A recognized line without a
    value and an unrecognized line of 300 characters are neither blank nor
    coordinate-like and go to no bucket.  In the record of the one-line
    file [A: 2] that line is both the entry [A] of OTHER and, through the
    pass after the loop, the canonical field STOICH. *)
Lemma header_line_not_in_exactly_one_bucket :
  (is_empty (strip (rstrip_nl (str "SCORE:" ++ nl))) = false /\
   stops (str "SCORE:" ++ nl) = false /\
   loop_body 0 (str "SCORE:" ++ nl) init_pstate = Next init_pstate) /\
  (is_empty (strip (rstrip_nl (repeat "x"%char 300 ++ nl))) = false /\
   stops (repeat "x"%char 300 ++ nl) = false /\
   recognized (repeat "x"%char 300 ++ nl) = None /\
   loop_body 0 (repeat "x"%char 300 ++ nl) init_pstate = Next init_pstate) /\
  option_map (fun r => (OTHER r, meta_get r (str "STOICH")))
    (parse_text (str "A: 2" ++ nl) default_max_header_lines)
  = Some (Some [(str "A", str "2")], Some (str "A2")).
Proof.
  vm_compute. repeat split; reflexivity.
Qed.

(** C2, amended.  A non-blank line that the header loop reaches (no
    coordinate-like line before it, index within the cap) and that is not
    coordinate-like itself has exactly one of the outcomes of [bucket_of]:
    the loop goes on with the state changed by that bucket alone.  The
    line goes to the remarks, to one canonical field, to one new generic
    key of [other] or to the new key [LINE_<i>] of [other], never to two of
    them; it goes to none exactly when its canonical key is recognized but
    the value is empty or noise, when it has the generic shape but the key
    or the value is empty or the key is already in [other], or when it is
    unrecognized and has 300 or more characters or [LINE_<i>] is taken. *)
Theorem header_line_bucket (mx : nat) (pre : list pystr) (raw : pystr)
    (post : list pystr) :
  length pre <= mx ->
  Forall (fun r => stops r = false) pre ->
  is_empty (strip (rstrip_nl raw)) = false ->
  stops raw = false ->
  exists b,
    bucket_of (length pre) raw (other (header_loop mx 0 pre init_pstate)) b /\
    (forall b',
        bucket_of (length pre) raw (other (header_loop mx 0 pre init_pstate)) b' ->
        b' = b) /\
    loop_body (length pre) raw (header_loop mx 0 pre init_pstate)
    = Next (put b (header_loop mx 0 pre init_pstate)) /\
    header_loop mx 0 (pre ++ raw :: post) init_pstate
    = header_loop mx (S (length pre)) post
        (put b (header_loop mx 0 pre init_pstate)).
Proof.
  intros Hlen Hpre Hb Hs.
  destruct (loop_body_bucket (length pre) raw
              (header_loop mx 0 pre init_pstate) Hb Hs) as (b & Hbo & Hbody).
  exists b. split; [exact Hbo|]. split.
  - intros b' Hb'. eapply bucket_of_unique; eassumption.
  - split; [exact Hbody|].
    rewrite header_loop_reach by (assumption || simpl; lia).
    simpl.
    assert (E : (mx <? length pre) = false) by (apply Nat.ltb_ge; lia).
    now rewrite E, Hbody.
Qed.

Lemma header_line_bucket_witness :
  exists b,
    bucket_of 1 (str "foo: 2" ++ nl)
      (other (header_loop 2000 0 [str "foo: 1" ++ nl] init_pstate)) b /\
    (forall b',
        bucket_of 1 (str "foo: 2" ++ nl)
          (other (header_loop 2000 0 [str "foo: 1" ++ nl] init_pstate)) b' ->
        b' = b) /\
    loop_body 1 (str "foo: 2" ++ nl)
      (header_loop 2000 0 [str "foo: 1" ++ nl] init_pstate)
    = Next (put b (header_loop 2000 0 [str "foo: 1" ++ nl] init_pstate)) /\
    header_loop 2000 0 ([str "foo: 1" ++ nl] ++ (str "foo: 2" ++ nl) :: [str "bar" ++ nl])
      init_pstate
    = header_loop 2000 2 [str "bar" ++ nl]
        (put b (header_loop 2000 0 [str "foo: 1" ++ nl] init_pstate)).
Proof.
  apply (header_line_bucket 2000 [str "foo: 1" ++ nl] (str "foo: 2" ++ nl)
           [str "bar" ++ nl]).
  - simpl; lia.
  - repeat (constructor; [vm_compute; reflexivity|]). constructor.
  - vm_compute; reflexivity.
  - vm_compute; reflexivity.
Defined.

(** ** The end of the header and the stoichiometry *)

Lemma header_loop_out_nonempty (mx : nat) (lines : list pystr) :
  forall i st,
    (forall k v, od_get (out st) k = Some (Some v) -> v <> []) ->
    forall k v,
      od_get (out (header_loop mx i lines st)) k = Some (Some v) -> v <> [].
Proof.
  induction lines as [|raw more IH]; intros i st Hst; simpl; [exact Hst|].
  destruct (mx <? i); [exact Hst|].
  destruct (loop_body i raw st) as [|st'] eqn:E; [exact Hst|].
  apply IH. apply loop_body_next in E as [_ A].
  destruct A as [| |canon val Hs| |]; try exact Hst.
  intros k v. simpl. rewrite od_get_set.
  destruct (str_eqb canon k).
  - intros [= <-]. eapply stored_not_stop; eassumption.
  - apply Hst.
Qed.

Lemma header_value_nonempty (mx : nat) (lines : list pystr) (k v : pystr) :
  header_value mx lines k = Some v ->
  od_get (out (header_loop mx 0 lines init_pstate)) k = Some (Some v) /\ v <> [].
Proof.
  unfold header_value, get_opt.
  destruct (od_get (out (header_loop mx 0 lines init_pstate)) k)
    as [[w|]|] eqn:E; try discriminate.
  intros [= <-]. split; [reflexivity|].
  eapply header_loop_out_nonempty; [|exact E].
  intros k0 v0. vm_compute.
  repeat match goal with
         | |- (if ?b then _ else _) = _ -> _ => destruct b; [discriminate|]
         end.
  discriminate.
Qed.

(** The STOICH field when the header left none. *)
Lemma stoich_field_synthesized (h : host) (p : pystr) (st : pstate) :
  od_keys (out st) = od_keys _KEY_ALIASES ->
  get_opt (out st) (str "STOICH") = None ->
  meta_get (build_result st (post_score (post_stoich h p (out st)))) (str "STOICH")
  = synthesized h p.
Proof.
  intros Hk Hopt.
  assert (Hmem : od_mem (out st) (str "STOICH") = true).
  { apply od_mem_in. rewrite Hk. simpl. auto. }
  assert (Hio : get_opt (out st) (str "STOICHIOMETRY") = None).
  { unfold get_opt.
    destruct (od_get (out st) (str "STOICHIOMETRY")) eqn:E; [|reflexivity].
    assert (M : od_mem (out st) (str "STOICHIOMETRY") = true)
      by (unfold od_mem; now rewrite E).
    apply od_mem_in in M. rewrite Hk in M.
    simpl in M. repeat (destruct M as [M|M]; [discriminate|]). contradiction. }
  rewrite meta_get_build. change (canonical (str "STOICH")) with true.
  unfold get_or_none. rewrite post_score_get.
  change (str_eqb (str "SCORE") (str "STOICH")) with false. cbv iota.
  unfold post_stoich, synthesized. rewrite Hopt, Hio. cbn [opt_truthy negb andb].
  destruct (_find_stoich_tokens_in_text (_collect_all_text h p)) as [found|].
  - unfold nonempty. destruct (truthy found) eqn:Ht.
    + rewrite Hmem, get_opt_set, str_eqb_refl. now rewrite Ht.
    + now rewrite Hopt.
  - now rewrite Hopt.
Qed.

(** The STOICH field of the record, from the header value. *)
Lemma stoich_field (h : host) (p : pystr) (mx : nat) (lines : list pystr) :
  meta_get
    (build_result (header_loop mx 0 lines init_pstate)
       (post_score (post_stoich h p (out (header_loop mx 0 lines init_pstate)))))
    (str "STOICH")
  = match header_value mx lines (str "STOICH") with
    | Some v => Some v
    | None => synthesized h p
    end.
Proof.
  destruct (header_value mx lines (str "STOICH")) as [v|] eqn:E.
  - apply header_value_nonempty in E as [Hget Hv].
    rewrite (field_of_out h p _ (str "STOICH") v eq_refl Hv Hget). reflexivity.
  - apply stoich_field_synthesized; [|exact E].
    apply header_loop_out_keys, od_keys_init.
Qed.

(** C4, amended.  Two files whose lines agree up to and including a
    coordinate-like line give records with the same remarks, the same
    [other] and the same value of every field except STOICH, whatever
    follows that line in either file.  When the header before that line
    stored a stoichiometry, both records have that value as STOICH too;
    only when it stored none is STOICH taken from the whole text of each
    file, the lines after the coordinate line included. *)
Theorem coordinate_line_ends_header (h : host) (p1 p2 : pystr) (mx : nat)
    (pre : list pystr) (c : pystr) (post1 post2 : list pystr) :
  os_path_exists h p1 = true ->
  os_path_exists h p2 = true ->
  iter_lines h p1 = pre ++ c :: post1 ->
  iter_lines h p2 = pre ++ c :: post2 ->
  stops c = true ->
  exists r1 r2,
    _parse_ts_metadata h p1 mx = Some r1 /\
    _parse_ts_metadata h p2 mx = Some r2 /\
    REMARKS r1 = REMARKS r2 /\
    OTHER r1 = OTHER r2 /\
    (forall k, k <> str "STOICH" -> meta_get r1 k = meta_get r2 k) /\
    match header_value mx pre (str "STOICH") with
    | Some v =>
        meta_get r1 (str "STOICH") = Some v /\
        meta_get r2 (str "STOICH") = Some v
    | None =>
        meta_get r1 (str "STOICH") = synthesized h p1 /\
        meta_get r2 (str "STOICH") = synthesized h p2
    end.
Proof.
  intros H1 H2 L1 L2 Hc.
  assert (E1 : header_loop mx 0 (iter_lines h p1) init_pstate
               = header_loop mx 0 pre init_pstate)
    by (rewrite L1; now apply header_loop_stop).
  assert (E2 : header_loop mx 0 (iter_lines h p2) init_pstate
               = header_loop mx 0 pre init_pstate)
    by (rewrite L2; now apply header_loop_stop).
  destruct (same_header_same_record h p1 p2 mx H1 H2)
    as (r1 & r2 & P1 & P2 & HR & HO & HK); [congruence|].
  exists r1, r2. repeat (split; [assumption|]).
  rewrite (parse_exists _ _ _ H1) in P1. rewrite (parse_exists _ _ _ H2) in P2.
  cbv zeta in P1, P2. rewrite E1 in P1. rewrite E2 in P2.
  injection P1 as <-. injection P2 as <-.
  rewrite !stoich_field.
  destruct (header_value mx pre (str "STOICH")); split; reflexivity.
Qed.

Lemma coordinate_line_ends_header_witness :
  exists r1 r2,
    _parse_ts_metadata demo_host (str "/work/atom.txt") 2000 = Some r1 /\
    _parse_ts_metadata demo_host (str "/work/atom2.txt") 2000 = Some r2 /\
    REMARKS r1 = REMARKS r2 /\
    OTHER r1 = OTHER r2 /\
    (forall k, k <> str "STOICH" -> meta_get r1 k = meta_get r2 k) /\
    meta_get r1 (str "STOICH") = synthesized demo_host (str "/work/atom.txt") /\
    meta_get r2 (str "STOICH") = synthesized demo_host (str "/work/atom2.txt").
Proof.
  apply (coordinate_line_ends_header demo_host (str "/work/atom.txt")
           (str "/work/atom2.txt") 2000 [] (atom_line ++ nl)
           [] [str "AUTHOR: Eve" ++ nl]);
    vm_compute; reflexivity.
Defined.

(** ** The score line *)




(** ** The synthesized stoichiometry *)









(** ** The cache and [show_ts_info] *)

Lemma stored_and_shown_eq (key text : pystr) (r : meta) (s : session) :
  _pretty_print_trimmed key (Some r)
    (print [VStr text] (cache_store key (Some r) s))
  = mk_session (od_set (cache s) key (Some r))
      (console s ++ [VStr text] :: rendering key r) (objects s).
Proof.
  rewrite pretty_print_console. unfold print, cache_store, rendering.
  cbn [cache console objects]. rewrite <- app_assoc. reflexivity.
Qed.

Lemma session_eta (s : session) :
  s = mk_session (cache s) (console s ++ []) (objects s).
Proof. rewrite app_nil_r. now destruct s. Qed.

(** Without a record in the cache and without a TS path, the outcome of
    [_show_for_key] is fixed by the host and the key. *)
Lemma show_uncached_auto (h : host) (key : pystr) :
  exists (ok : bool) (upd : option meta) (added : list (list pyval)),
    (ok = true <-> upd <> None) /\
    forall s, cache_get s key = None ->
      _show_for_key h key None s
      = (ok, mk_session
               (match upd with
                | Some r => od_set (cache s) key (Some r)
                | None => cache s
                end)
               (console s ++ added) (objects s)).
Proof.
  destruct (chosen_by_name h key) as [chosen|] eqn:Hch.
  - destruct (truthy chosen) eqn:Ht.
    + destruct (_parse_ts_metadata h chosen default_max_header_lines) as [r|] eqn:Hp.
      * exists true, (Some r),
          ([VStr (str "show_ts_info: found TS '" ++ Path.basename chosen
                  ++ str "' -> parsed & cached under key: " ++ key)]
           :: rendering key r).
        split; [split; [discriminate|reflexivity]|].
        intros s Hc. unfold _show_for_key.
        rewrite Hc, discover_spec, Hch. cbv beta iota.
        rewrite Ht, Hp, meta_truthy_some. cbv zeta.
        now rewrite stored_and_shown_eq.
      * exists false, None,
          [[VStr (str "show_ts_info: found candidate TS but parsing failed:");
            VStr chosen]].
        split; [split; [discriminate|congruence]|].
        intros s Hc. unfold _show_for_key.
        rewrite Hc, discover_spec, Hch. cbv beta iota.
        rewrite Ht, Hp. reflexivity.
    + exists false, None, []. split; [split; [discriminate|congruence]|].
      intros s Hc. unfold _show_for_key.
      rewrite Hc, discover_spec, Hch. cbv beta iota. rewrite Ht.
      now rewrite <- session_eta.
  - exists false, None, []. split; [split; [discriminate|congruence]|].
    intros s Hc. unfold _show_for_key.
    rewrite Hc, discover_spec, Hch. cbv beta iota.
    now rewrite <- session_eta.
Qed.

(** The same with any TS path. *)
Lemma show_uncached_shape (h : host) (key : pystr) (ts : option pystr) :
  exists (ok : bool) (upd : option meta) (added : list (list pyval)),
    (ok = true <-> upd <> None) /\
    forall s, cache_get s key = None ->
      _show_for_key h key ts s
      = (ok, mk_session
               (match upd with
                | Some r => od_set (cache s) key (Some r)
                | None => cache s
                end)
               (console s ++ added) (objects s)).
Proof.
  destruct ts as [[|c t]|]; [exact (show_uncached_auto h key)| |
                             exact (show_uncached_auto h key)].
  set (ts := c :: t).
  destruct (os_path_exists h (expanduser h ts) && os_path_isfile h (expanduser h ts))
    eqn:Hex.
  - destruct (_parse_ts_metadata h (expanduser h ts) default_max_header_lines)
      as [r|] eqn:Hp.
    + exists true, (Some r),
        ([VStr (str "show_ts_info: parsed and cached TS from: "
                ++ expanduser h ts ++ str " -> key: " ++ key)]
         :: rendering key r).
      split; [split; [discriminate|reflexivity]|].
      intros s Hc. unfold _show_for_key. rewrite Hc. fold ts. cbv zeta.
      rewrite Hex, Hp, meta_truthy_some.
      now rewrite stored_and_shown_eq.
    + exists false, None,
        [[VStr (str "show_ts_info: parsing failed for:"); VStr (expanduser h ts)]].
      split; [split; [discriminate|congruence]|].
      intros s Hc. unfold _show_for_key. rewrite Hc. fold ts. cbv zeta.
      rewrite Hex, Hp. reflexivity.
  - exists false, None,
      [[VStr (str "show_ts_info: provided TS path not found:"); VStr ts]].
    split; [split; [discriminate|congruence]|].
    intros s Hc. unfold _show_for_key. rewrite Hc. fold ts. cbv zeta.
    rewrite Hex. reflexivity.
Qed.

Lemma cache_get_none (s : session) (key : pystr) :
  cache_get s key = None <->
  od_get (cache s) key = None \/ od_get (cache s) key = Some None.
Proof.
  unfold cache_get. destruct (od_get (cache s) key) as [[m|]|]; split;
    intros H; try reflexivity; try discriminate; auto;
    destruct H; discriminate.
Qed.

(** C1 as stated fails: [load_model_with_ts] on the open object [m1]
    finds no TS file and caches an absent record; [show_ts_info m1] then
    does not render that absence but discovers [m1.txt] in the working
    directory, parses it and overwrites the cache entry. *)
Lemma cached_absence_is_retried :
  exists s1 res,
    load_model_with_ts demo_host demo_load (str "m1") None demo_session
    = Some (s1, res) /\
    od_get (cache s1) (str "m1") = Some None /\
    (exists r,
        od_get (cache (show_ts_info demo_host (Some (str "m1")) None s1))
          (str "m1") = Some (Some r) /\
        meta_get r (str "AUTHOR") = Some (str "Bob")) /\
    show_ts_info demo_host (Some (str "m1")) None s1
    <> _pretty_print_trimmed (str "m1") None s1.
Proof.
  eexists. eexists. split; [vm_compute; reflexivity|].
  split; [vm_compute; reflexivity|]. split.
  - eexists. split; vm_compute; reflexivity.
  - intros E. apply (f_equal (fun s => od_get (cache s) (str "m1"))) in E.
    vm_compute in E. discriminate E.
Qed.

(** C1, amended.  For every key whose cache entry holds a record,
    [_show_for_key] prints that record and does nothing else, whatever the
    file system holds and whether or not a TS path is given: nothing is
    parsed, nothing is searched, the cache stays as it was; and so does
    [show_ts_info] called with that key, when the key is not the empty
    string (the empty string is no key to [show_ts_info]: it goes on as if
    called without one).  For every key whose cache entry holds an absent
    record, the call is handled exactly as for a key that was never cached:
    whether it succeeds, what it prints and the record it stores under the
    key are fixed by the host, the key and the TS path alone, the same for
    both kinds of session. *)
Theorem cached_record_is_shown (h : host) (key : pystr) (ts_path : option pystr) :
  (forall m s,
      od_get (cache s) key = Some (Some m) ->
      _show_for_key h key ts_path s
      = (true, _pretty_print_trimmed key (Some m) s) /\
      cache (snd (_show_for_key h key ts_path s)) = cache s /\
      (key <> [] ->
       show_ts_info h (Some key) ts_path s = _pretty_print_trimmed key (Some m) s)) /\
  (forall s, show_ts_info h (Some []) ts_path s = show_ts_info h None ts_path s) /\
  exists (ok : bool) (upd : option meta) (added : list (list pyval)),
    (ok = true <-> upd <> None) /\
    forall s,
      od_get (cache s) key = None \/ od_get (cache s) key = Some None ->
      _show_for_key h key ts_path s
      = (ok, mk_session
               (match upd with
                | Some r => od_set (cache s) key (Some r)
                | None => cache s
                end)
               (console s ++ added) (objects s)) /\
      (key <> [] ->
       show_ts_info h (Some key) ts_path s
       = mk_session
           (match upd with
            | Some r => od_set (cache s) key (Some r)
            | None => cache s
            end)
           (console s ++ added ++ (if ok then [] else options_notice key))
           (objects s)).
Proof.
  split; [|split; [reflexivity|]].
  - intros m s Hget.
    assert (Hshow : _show_for_key h key ts_path s
                    = (true, _pretty_print_trimmed key (Some m) s)).
    { unfold _show_for_key, cache_get. now rewrite Hget. }
    split; [exact Hshow|]. split.
    + rewrite Hshow. cbn [snd]. now rewrite pretty_print_console.
    + intros Hkey. unfold show_ts_info. destruct key as [|c key]; [contradiction|].
      now rewrite Hshow.
  - destruct (show_uncached_shape h key ts_path) as (ok & upd & added & Hok & Hs).
    exists ok, upd, added. split; [exact Hok|].
    intros s Hc. apply cache_get_none in Hc. specialize (Hs s Hc).
    split; [exact Hs|].
    intros Hkey. unfold show_ts_info. destruct key as [|c key]; [contradiction|].
    rewrite Hs. destruct ok.
    + now rewrite app_nil_r.
    + unfold print, options_notice. cbn [cache console objects].
      rewrite <- !app_assoc. reflexivity.
Qed.

Lemma cached_record_is_shown_witness :
  (exists m,
      od_get (cache (show_ts_info demo_host (Some (str "m1")) None demo_session))
        (str "m1") = Some (Some m) /\
      show_ts_info demo_host (Some (str "m1")) None
        (show_ts_info demo_host (Some (str "m1")) None demo_session)
      = _pretty_print_trimmed (str "m1") (Some m)
          (show_ts_info demo_host (Some (str "m1")) None demo_session)) /\
  fst (_show_for_key demo_host (str "m1") None
         (cache_store (str "m1") None demo_session))
  = fst (_show_for_key demo_host (str "m1") None demo_session).
Proof.
  destruct (cached_record_is_shown demo_host (str "m1") None)
    as (Hrec & _ & ok & upd & added & _ & Hnone).
  split.
  - eexists. split; [vm_compute; reflexivity|].
    apply Hrec; [vm_compute; reflexivity|discriminate].
  - rewrite (proj1 (Hnone (cache_store (str "m1") None demo_session)
                      (or_intror eq_refl))).
    rewrite (proj1 (Hnone demo_session (or_introl eq_refl))).
    reflexivity.
Defined.

(** ** Loading *)

